(** * mesRecettes: the recipe index generator (generate-recipes-json.py)

    A shallow embedding of the script that turns a directory of [.qmd]
    recipe documents into one JSON index, and the properties of it that the
    specification states.

    Python [str] values are sequences of Unicode code points; they are
    modelled as [list N].  The two regular expressions of the script are
    kept as syntax trees and run by a backtracking matcher with Python's
    priorities (greedy and lazy repetition, ordered alternation).

    What the interpreter and the operating system contribute is modelled
    as follows.
    - The text of a file is what [f.read()] returns: decoded, line ends
      already translated.  A read that fails raises.
    - [Path.glob] and the comparison of paths are those of a POSIX
      system: names are matched and ordered case-sensitively, by code
      point.
    - [Path.stem] cuts the name at its last dot unless that dot is its
      first or its last character.
    - [int] reads a decimal literal of any length.
    - A run is the list of its effects: the lines printed, the creation of
      the output's parent directories, the text written. *)

From Stdlib Require Import NArith ZArith String Ascii DecimalString.
From stdpp Require Import gmap list sorting.

Local Open Scope N_scope.

(** ** Python strings *)

Abbreviation pystr := (list N).

(** UTF-8 decoding of the literals written in this file (all of them are
    below U+0800, so one- and two-byte sequences suffice). *)
Fixpoint utf8_decode (bs : list N) : pystr :=
  match bs with
  | [] => []
  | b :: bs' =>
      if b <? 192 then b :: utf8_decode bs'
      else match bs' with
           | b2 :: bs'' => ((b - 192) * 64 + (b2 - 128)) :: utf8_decode bs''
           | [] => [b]
           end
  end.

Fixpoint bytes_of_string (s : string) : list N :=
  match s with
  | EmptyString => []
  | String a s' => N_of_ascii a :: bytes_of_string s'
  end.

Definition str (s : string) : pystr := utf8_decode (bytes_of_string s).

Definition NL : N := 10.
Definition DASH : N := 45.
Definition COLON : N := 58.
Definition COMMA : N := 44.
Definition LBRACKET : N := 91.
Definition RBRACKET : N := 93.
Definition DQUOTE : N := 34.
Definition SQUOTE : N := 39.
Definition HASH : N := 35.
Definition DOT : N := 46.

(** [str.isspace] for one character, which is also the class [\s] of a
    [str] pattern: the code points with bidirectional type WS, B or S, or
    of category Zs. *)
Definition isspace (c : N) : bool :=
  ((9 <=? c) && (c <=? 13)) || ((28 <=? c) && (c <=? 32))
  || (c =? 133) || (c =? 160) || (c =? 5760)
  || ((8192 <=? c) && (c <=? 8202))
  || (c =? 8232) || (c =? 8233) || (c =? 8239) || (c =? 8287) || (c =? 12288).

Fixpoint drop_while (p : N → bool) (s : pystr) : pystr :=
  match s with
  | c :: s' => if p c then drop_while p s' else s
  | [] => []
  end.

Definition lstrip_chars (p : N → bool) (s : pystr) : pystr := drop_while p s.
Definition rstrip_chars (p : N → bool) (s : pystr) : pystr :=
  rev (drop_while p (rev s)).
Definition strip_chars (p : N → bool) (s : pystr) : pystr :=
  rstrip_chars p (lstrip_chars p s).

(** [s.strip()], [s.rstrip()] and [s.strip(chars)]. *)
Definition strip (s : pystr) : pystr := strip_chars isspace s.
Definition rstrip (s : pystr) : pystr := rstrip_chars isspace s.
Definition one_of (cs : list N) (c : N) : bool := bool_decide (c ∈ cs).
Definition strip_set (cs : list N) (s : pystr) : pystr := strip_chars (one_of cs) s.

(** [s.startswith(c)] for a one-character prefix. *)
Definition startswith (c : N) (s : pystr) : bool :=
  match s with
  | x :: _ => x =? c
  | [] => false
  end.

(** [c in s]. *)
Definition contains (c : N) (s : pystr) : bool := existsb (N.eqb c) s.

(** [s.split(sep)] for a one-character separator. *)
Fixpoint split (sep : N) (s : pystr) : list pystr :=
  match s with
  | [] => [[]]
  | c :: s' =>
      if c =? sep then [] :: split sep s'
      else match split sep s' with
           | w :: ws => (c :: w) :: ws
           | [] => [[c]]
           end
  end.

(** [s.split(sep, 1)] when [sep in s]: the text before the first separator
    and the text after it. *)
Fixpoint split1 (sep : N) (s : pystr) : pystr * pystr :=
  match s with
  | [] => ([], [])
  | c :: s' =>
      if c =? sep then ([], s')
      else let '(k, v) := split1 sep s' in (c :: k, v)
  end.

(** ** The regular expressions of the script *)

Module Re.

(** The fragment of Python's [re] syntax the script uses.  Repetition is
    only ever applied to a single-character class ([\s*], [\s+], [.*?]). *)
Inductive regex : Type :=
| Eps
| Lit (c : N)
| Cls (p : N → bool)
| Bos
| Eos
| Seq (r1 r2 : regex)
| Alt (r1 r2 : regex)
| Star (p : N → bool)
| StarLazy (p : N → bool)
| Group (r : regex)
| Ahead (r : regex).

(** A position in the subject: how many characters lie before it, the
    text from it on, and what group 1 holds. *)
Record mstate : Type :=
  MState { m_pos : nat; m_rest : pystr; m_group : option pystr }.

Definition advance (st : mstate) (s' : pystr) : mstate :=
  MState (S (m_pos st)) s' (m_group st).

(** [p*]: take as many characters as possible, give them back one at a
    time while the rest of the pattern fails. *)
Fixpoint star_greedy (p : N → bool) (st : mstate) (s : pystr)
    (k : mstate → option mstate) : option mstate :=
  match s with
  | c :: s' =>
      if p c
      then match star_greedy p (advance st s') s' k with
           | Some m => Some m
           | None => k st
           end
      else k st
  | [] => k st
  end.

(** [p*?]: try the rest of the pattern first, take one more character
    only when it fails. *)
Fixpoint star_lazy (p : N → bool) (st : mstate) (s : pystr)
    (k : mstate → option mstate) : option mstate :=
  match k st with
  | Some m => Some m
  | None =>
      match s with
      | c :: s' => if p c then star_lazy p (advance st s') s' k else None
      | [] => None
      end
  end.

(** The backtracking matcher, in continuation-passing style: [k] is the
    rest of the pattern. *)
Fixpoint exec (r : regex) (st : mstate) (k : mstate → option mstate)
    : option mstate :=
  match r with
  | Eps => k st
  | Lit c =>
      match m_rest st with
      | x :: s' => if x =? c then k (advance st s') else None
      | [] => None
      end
  | Cls p =>
      match m_rest st with
      | x :: s' => if p x then k (advance st s') else None
      | [] => None
      end
  | Bos => if decide (m_pos st = 0%nat) then k st else None
  | Eos => match m_rest st with [] => k st | _ :: _ => None end
  | Seq r1 r2 => exec r1 st (λ st', exec r2 st' k)
  | Alt r1 r2 =>
      match exec r1 st k with
      | Some m => Some m
      | None => exec r2 st k
      end
  | Star p => star_greedy p st (m_rest st) k
  | StarLazy p => star_lazy p st (m_rest st) k
  | Group r1 =>
      exec r1 st (λ st',
        k (MState (m_pos st') (m_rest st')
             (Some (take (m_pos st' - m_pos st) (m_rest st)))))
  | Ahead r1 =>
      match exec r1 st Some with
      | Some _ => k st
      | None => None
      end
  end.

(** [re.match(r, s)]: a match starting at the beginning of [s]. *)
Definition re_match (r : regex) (s : pystr) : option mstate :=
  exec r (MState 0 s None) Some.

(** [re.search(r, s)]: the match at the leftmost position that has one. *)
Fixpoint search_from (r : regex) (pos : nat) (s : pystr) : option mstate :=
  match exec r (MState pos s None) Some with
  | Some m => Some m
  | None =>
      match s with
      | _ :: s' => search_from r (S pos) s'
      | [] => None
      end
  end.

Definition re_search (r : regex) (s : pystr) : option mstate :=
  search_from r 0 s.

(** [m.group(1)]; group 1 takes part in every match of both patterns. *)
Definition group1 (m : mstate) : pystr := default [] (m_group m).

Definition seq (rs : list regex) : regex := foldr Seq Eps rs.
Definition lits (s : pystr) : regex := seq (Lit <$> s).
Definition plus (p : N → bool) : regex := Seq (Cls p) (Star p).

(** [.] under [re.DOTALL]. *)
Definition any : N → bool := λ _, true.

(** Simple lower-casing ([_sre.unicode_tolower]) on the code points
    whose image is a Latin-1 letter; these are all that can fold to a
    letter of the script's pattern. *)
Definition tolower (x : N) : N :=
  if (65 <=? x) && (x <=? 90) then x + 32
  else if (192 <=? x) && (x <=? 222) && negb (x =? 215) then x + 32
  else if x =? 304 then 105
  else x.

(** The lower-case letters [re] treats as equal to [lo] beyond simple
    case folding: dotless i for i, long s for s. *)
Definition fixes (lo : N) : list N :=
  if lo =? 105 then [305] else if lo =? 115 then [383] else [].

(** A literal of a pattern compiled with [re.IGNORECASE]. *)
Definition ignorecase (c : N) : N → bool :=
  λ x, bool_decide (tolower x ∈ tolower c :: fixes (tolower c)).

Definition lits_ignorecase (s : pystr) : regex := seq ((λ c, Cls (ignorecase c)) <$> s).

End Re.

(** [r'^---\s*\n(.*?)\n---\s*\n'] with [re.DOTALL]. *)
Definition frontmatter_re : Re.regex :=
  Re.seq [ Re.Bos; Re.lits (str "---"); Re.Star isspace; Re.Lit NL;
           Re.Group (Re.StarLazy Re.any);
           Re.Lit NL; Re.lits (str "---"); Re.Star isspace; Re.Lit NL ].

(** [r'##\s+Ingrédients\s*\n(.*?)(?=\n##|\Z)'] with
    [re.DOTALL | re.IGNORECASE]. *)
Definition ingredients_re : Re.regex :=
  Re.seq [ Re.lits (str "##"); Re.plus isspace;
           Re.lits_ignorecase (str "Ingrédients"); Re.Star isspace; Re.Lit NL;
           Re.Group (Re.StarLazy Re.any);
           Re.Ahead (Re.Alt (Re.Seq (Re.Lit NL) (Re.lits (str "##"))) Re.Eos) ].


(** ** Values, exceptions and results *)

(** A metadata value: a scalar string or a list of strings. *)
Inductive value : Type :=
| VStr (s : pystr)
| VList (l : list pystr).

Global Instance value_eq_dec : EqDecision value.
Proof. solve_decision. Defined.

(** The exceptions the script can meet while it handles one file. *)
Inductive exn : Type :=
| OSError          (* open() or read() failed, undecodable bytes included *)
| AttributeError   (* .append on a str *)
| KeyError
| IndexError       (* [][0] *)
| ValueError       (* int() of a string that is no integer literal *)
| TypeError.       (* int() of a list *)

Inductive result (A : Type) : Type :=
| Return (a : A)
| Raise (e : exn).
Arguments Return {A} a.
Arguments Raise {A} e.

Definition bind {A B} (x : result A) (f : A → result B) : result B :=
  match x with
  | Return a => f a
  | Raise e => Raise e
  end.

Notation "x ←! e1 ; e2" := (bind e1 (λ x, e2))
  (at level 100, e1 at next level, e2 at level 200, right associativity).

(** A loop whose body may raise. *)
Fixpoint for_each {A S} (body : S → A → result S) (s : S) (l : list A) : result S :=
  match l with
  | [] => Return s
  | a :: l' => s' ←! body s a; for_each body s' l'
  end.

(** ** parse_yaml_frontmatter *)

(** The local variables of the loop over the header's lines. *)
Record yaml_state : Type := YamlState {
  metadata : gmap pystr value;
  current_key : option pystr;
  list_mode : bool
}.

Definition QUOTES : list N := [DQUOTE; SQUOTE].

Definition is_empty (s : pystr) : bool :=
  match s with
  | [] => true
  | _ :: _ => false
  end.

(** One iteration of [for line in yaml_content.split('\n')]. *)
Definition yaml_line (st : yaml_state) (line : pystr) : result yaml_state :=
  let line := rstrip line in
  if contains COLON line && negb (startswith DASH (strip line)) then
    let '(key, value) := split1 COLON line in
    let key := strip key in
    let value := strip_set QUOTES (strip value) in
    if startswith LBRACKET value then
      let value := strip_set [LBRACKET; RBRACKET] value in
      let items := (λ item, strip_set QUOTES (strip item)) <$> split COMMA value in
      Return (YamlState (<[key := VList items]> (metadata st))
                (current_key st) (list_mode st))
    else if negb (is_empty value) then
      Return (YamlState (<[key := VStr value]> (metadata st))
                (current_key st) (list_mode st))
    else
      Return (YamlState (<[key := VList []]> (metadata st)) (Some key) true)
  else if startswith DASH (strip line) && list_mode st then
    let item := strip_set QUOTES (strip (tail (strip line))) in
    match current_key st with
    | Some key =>
        if is_empty key then Return st
        else match metadata st !! key with
             | Some (VList l) =>
                 Return (YamlState (<[key := VList (l ++ [item])]> (metadata st))
                           (current_key st) (list_mode st))
             | Some (VStr _) => Raise AttributeError
             | None => Raise KeyError
             end
    | None => Return st
    end
  else Return st.

(** [None] is the script's "no front matter"; the function can also raise,
    when a dash line follows a list key that was redeclared as a scalar. *)
Definition parse_yaml_frontmatter (content : pystr)
    : result (option (gmap pystr value)) :=
  match Re.re_match frontmatter_re content with
  | None => Return None
  | Some m =>
      let yaml_content := Re.group1 m in
      st ←! for_each yaml_line (YamlState ∅ None false) (split NL yaml_content);
      Return (Some (metadata st))
  end.

(** ** extract_ingredients *)

(** One iteration of [for line in ingredients_section.split('\n')]. *)
Definition ingredient_line (ingredients : list pystr) (line : pystr) : list pystr :=
  let line := strip line in
  if startswith DASH line then
    let ingredient := strip (tail line) in
    if negb (is_empty ingredient) then ingredients ++ [ingredient] else ingredients
  else ingredients.

Definition extract_ingredients (content : pystr) : list pystr :=
  match Re.re_search ingredients_re content with
  | None => []
  | Some m =>
      let ingredients_section := Re.group1 m in
      foldl ingredient_line [] (split NL ingredients_section)
  end.


(** ** Paths and the file system *)

(** A [pathlib.Path] of a directory entry: the directory and the entry's
    name. *)
Record path : Type := Path { parent : pystr; name : pystr }.

Global Instance path_eq_dec : EqDecision path.
Proof. solve_decision. Defined.

(** What the script sees of the file system: the entry names of a
    directory, in the order the operating system enumerates them ([None]
    when the directory does not exist), and the text that
    [open(p, 'r', encoding='utf-8').read()] returns for a file. *)
Record filesystem : Type := FileSystem {
  listdir : pystr → option (list pystr);
  read_text : path → result pystr
}.

(** [s.rfind(c)]. *)
Fixpoint rfind (c : N) (s : pystr) : option nat :=
  match s with
  | [] => None
  | x :: s' =>
      match rfind c s' with
      | Some i => Some (S i)
      | None => if x =? c then Some 0%nat else None
      end
  end.

(** [Path.stem]: the name up to its last dot, unless that dot is the first
    or the last character. *)
Definition stem (p : path) : pystr :=
  match rfind DOT (name p) with
  | Some i =>
      if bool_decide (0 < i)%nat && bool_decide (i < length (name p) - 1)%nat
      then take i (name p)
      else name p
  | None => name p
  end.

Definition generate_recipe_id (filepath : path) : pystr := stem filepath.

(** [s.endswith(suffix)]. *)
Definition endswith (suffix s : pystr) : bool :=
  bool_decide (drop (length s - length suffix) s = suffix).

(** [Path.glob('*.qmd')] on one entry name. *)
Definition glob_qmd (n : pystr) : bool := endswith (str ".qmd") n.

(** Python's order on [str]: lexicographic on code points. *)
Fixpoint str_le (a b : pystr) : bool :=
  match a, b with
  | [], _ => true
  | _ :: _, [] => false
  | x :: a', y :: b' => (x <? y) || ((x =? y) && str_le a' b')
  end.

(** The order [sorted] uses on the paths of one directory: they share their
    parent, so they compare as their names do. *)
Definition path_le (f g : path) : Prop := str_le (name f) (name g) = true.

Global Instance path_le_dec f g : Decision (path_le f g).
Proof. unfold path_le. apply _. Defined.

(** [sorted(files)]. *)
Definition sorted (files : list path) : list path := merge_sort path_le files.

(** ** Recipes and their JSON text *)

Record recipe : Type := Recipe {
  id : pystr;
  title : value;
  category : pystr;
  servings : Z;
  ingredients : list pystr
}.

Module Json.

Definition hex (n : N) : N := if n <? 10 then 48 + n else 87 + n.

(** The replacement [json.encoder] makes for one character when
    [ensure_ascii] is false. *)
Definition escape (c : N) : pystr :=
  if c =? 92 then [92; 92]
  else if c =? 34 then [92; 34]
  else if c =? 8 then [92; 98]
  else if c =? 12 then [92; 102]
  else if c =? 10 then [92; 110]
  else if c =? 13 then [92; 114]
  else if c =? 9 then [92; 116]
  else if c <? 32 then str "\u00" ++ [hex (c / 16); hex (c mod 16)]
  else [c].

Definition string (s : pystr) : pystr := [DQUOTE] ++ (s ≫= escape) ++ [DQUOTE].

Definition int (z : Z) : pystr := str (NilZero.string_of_int (Z.to_int z)).

Definition newline_indent (level : nat) : pystr := NL :: replicate (2 * level) 32.

(** Items one per line at [level + 1], between [o] and [c]; an empty
    container is written [o c] with nothing between. *)
Definition container (o c : N) (level : nat) (items : list pystr) : pystr :=
  match items with
  | [] => [o; c]
  | first :: others =>
      [o] ++ newline_indent (S level) ++ first
      ++ (others ≫= λ item, [COMMA] ++ newline_indent (S level) ++ item)
      ++ newline_indent level ++ [c]
  end.

Definition array (level : nat) (items : list pystr) : pystr :=
  container LBRACKET RBRACKET level items.

Definition member (key : pystr) (v : pystr) : pystr :=
  string key ++ str ": " ++ v.

Definition object (level : nat) (members : list pystr) : pystr :=
  container 123 125 level members.

Definition of_value (level : nat) (v : value) : pystr :=
  match v with
  | VStr s => string s
  | VList l => array level (string <$> l)
  end.

Definition of_recipe (level : nat) (r : recipe) : pystr :=
  object level
    [ member (str "id") (string (id r));
      member (str "title") (of_value (S level) (title r));
      member (str "category") (string (category r));
      member (str "servings") (int (servings r));
      member (str "ingredients") (array (S level) (string <$> ingredients r)) ].

(** [json.dump(recipes, f, ensure_ascii=False, indent=2)]: the text
    written to [f]. *)
Definition dump (recipes : list recipe) : pystr :=
  array 0 (of_recipe 1 <$> recipes).

End Json.


(** ** What a run does *)

(** The lines the script prints, with their parameters. *)
Inductive message : Type :=
| WARNING_no_frontmatter (filepath : path)
| ERROR_parsing (filepath : path) (e : exn)
| ERROR_no_directory (recipes_dir : pystr)
| FOUND (n : nat)
| PROCESSING (file_name : pystr)
| OK (recipe_title : value) (n_ingredients : nat)
| SUCCESS (output_file : pystr)
| TOTAL (n : nat).

(** The effects of a run, in order. *)
Inductive event : Type :=
| Print (m : message)
| MkdirParents (output_file : pystr)
| WriteText (output_file : pystr) (text : pystr).

(** ** The ingredient pattern, read as functions on the text *)

(** [s] begins with a line break followed by [##]. *)
Definition heading_follows (s : pystr) : bool :=
  match s with
  | c1 :: c2 :: c3 :: _ => (c1 =? NL) && (c2 =? HASH) && (c3 =? HASH)
  | _ => false
  end.

(** Where the look-ahead [(?=\n##|\Z)] holds. *)
Definition section_end (s : pystr) : bool := is_empty s || heading_follows s.

(** The text up to the first place where the look-ahead holds. *)
Fixpoint section_text (s : pystr) : pystr :=
  if section_end s then []
  else match s with
       | c :: s' => c :: section_text s'
       | [] => []
       end.

(** The text that follows the line break [\s*\n] ends on: the last one in
    the white space that follows the heading's label. *)
Fixpoint after_heading (s : pystr) : option pystr :=
  match s with
  | [] => None
  | c :: s' =>
      if isspace c
      then match after_heading s' with
           | Some r => Some r
           | None => if c =? NL then Some s' else None
           end
      else None
  end.

(** [s] begins with [label], whatever the case of the letters. *)
Fixpoint ci_prefix (label s : pystr) : bool :=
  match label, s with
  | [], _ => true
  | c :: label', x :: s' => Re.ignorecase c x && ci_prefix label' s'
  | _ :: _, [] => false
  end.

(** The parts of the two patterns. *)
Definition lookahead_re : Re.regex :=
  Re.Ahead (Re.Alt (Re.Seq (Re.Lit NL) (Re.lits (str "##"))) Re.Eos).

Definition heading_res : list Re.regex :=
  [Re.lits (str "##"); Re.plus isspace; Re.lits_ignorecase (str "Ingrédients")].

Definition front_res : list Re.regex :=
  [ Re.Bos; Re.lits (str "---"); Re.Star isspace; Re.Lit NL;
    Re.Group (Re.StarLazy Re.any); Re.Lit NL; Re.lits (str "---") ].

Definition HEADING : pystr := str "## Ingrédients".

Definition LABEL : pystr := str "Ingrédients".

(** [s] begins with [##], white space and the label. *)
Definition label_at (s : pystr) : bool :=
  match s with
  | c1 :: c2 :: c3 :: s' =>
      (c1 =? HASH) && (c2 =? HASH) && isspace c3
      && ci_prefix LABEL (drop_while isspace s')
  | _ => false
  end.

(** None of the first [n] positions of [s] begins the label. *)
Fixpoint label_free (n : nat) (s : pystr) : bool :=
  match n, s with
  | S n', _ :: s' => negb (label_at s) && label_free n' s'
  | _, _ => true
  end.

(** Every character of [s] is white space. *)
Definition blank (s : pystr) : bool := forallb isspace s.

(** No line break of [s] is followed by [##]. *)
Fixpoint no_heading_inside (s : pystr) : bool :=
  match s with
  | [] => true
  | _ :: s' => negb (heading_follows s) && no_heading_inside s'
  end.

(** The loop of [extract_ingredients] on a text. *)
Definition dash_items (text : pystr) : list pystr :=
  foldl ingredient_line [] (split NL text).

(** ** The document of the round trip *)

(** Lines, each ended by a line break. *)
Definition unlines (ls : list pystr) : pystr := ls ≫= λ l, l ++ [NL].

Definition soup_header : pystr :=
  unlines [ str "---";
            str "title: " ++ [DQUOTE] ++ str "Soup" ++ [DQUOTE];
            str "categories: [dinner, easy]";
            str "servings: 2";
            str "---" ].

Definition soup_section : pystr :=
  unlines [ str "## Ingrédients"; str "- 2 carrots"; str "- 1 onion" ].

Definition soup_yaml : pystr :=
  str "title: " ++ [DQUOTE] ++ str "Soup" ++ [DQUOTE] ++ [NL]
  ++ str "categories: [dinner, easy]" ++ [NL] ++ str "servings: 2".

Definition soup_metadata : gmap pystr value :=
  <[str "servings" := VStr (str "2")]>
    (<[str "categories" := VList [str "dinner"; str "easy"]]>
       (<[str "title" := VStr (str "Soup")]> ∅)).

(** ** Example documents and directories *)

Definition soup_document : pystr := soup_header ++ [NL] ++ soup_section.

(** Header markers around a line that declares nothing. *)
Definition no_entry_document : pystr :=
  unlines [ str "---"; str "(recette sans rubrique)"; str "---"; str "- sel" ].

(** No header markers at all. *)
Definition no_header_document : pystr :=
  unlines [ str "## Ingrédients"; str "- sel" ].

Definition empty_categories_document : pystr :=
  unlines [ str "---"; str "title: Tarte"; str "categories:"; str "---" ].

Definition author_only_document : pystr :=
  unlines [ str "---"; str "author: Léon"; str "---";
            str "## Ingrédients"; str "- sel" ].

Definition bad_servings_document : pystr :=
  unlines [ str "---"; str "title: Flan"; str "servings: beaucoup"; str "---" ].

(** An ingredient section with a deeper sub-heading inside. *)
Definition subheading_document : pystr :=
  unlines [ str "## Ingrédients"; str "- farine";
            str "### Garniture"; str "- sucre" ].

(** An ingredient section followed by a shallower heading. *)
Definition shallow_heading_document : pystr :=
  unlines [ str "## Ingrédients"; str "- farine"; str "# Notes"; str "- sel" ].

(** The texts of the example files, by name. *)
Definition kitchen (n : pystr) : option pystr :=
  if decide (n = str "soupe.qmd") then Some soup_document
  else if decide (n = str "a.qmd") then Some soup_document
  else if decide (n = str "b.qmd") then Some author_only_document
  else if decide (n = str "_template.qmd") then Some soup_document
  else if decide (n = str "flan.qmd") then Some bad_servings_document
  else if decide (n = str "tarte.qmd") then Some empty_categories_document
  else if decide (n = str "sel.qmd") then Some author_only_document
  else if decide (n = str "vide.qmd") then Some no_entry_document
  else if decide (n = str "notes.qmd") then Some no_header_document
  else None.

Definition RECETTES : pystr := str "recettes".
Definition OUTPUT : pystr := str "recettes/recettes-data.json".

(** A file system whose directory [recettes] enumerates [names]; the files
    hold the texts of [kitchen], and reading any other file fails. *)
Definition directory (names : list pystr) : filesystem :=
  FileSystem
    (λ d, if decide (d = RECETTES) then Some names else None)
    (λ p, match kitchen (name p) with
          | Some text => Return text
          | None => Raise OSError
          end).

(** A file system without the directory [recettes]. *)
Definition no_directory : filesystem :=
  FileSystem (λ _, None) (λ _, Raise OSError).

(** A decimal-digit table with no digit beyond ASCII. *)
Definition ascii_digits : N → option N := λ _, None.

(** ** The header pattern, read as functions on the text *)

(** Where [\s*\n] matches: white space up to a line break. *)
Fixpoint line_ends (t : pystr) : bool :=
  match t with
  | [] => false
  | c :: t' => (c =? NL) || (isspace c && line_ends t')
  end.

(** [s] begins with a line break followed by [---]. *)
Definition marker_follows (s : pystr) : bool :=
  match s with
  | c1 :: c2 :: c3 :: c4 :: _ =>
      (c1 =? NL) && (c2 =? DASH) && (c3 =? DASH) && (c4 =? DASH)
  | _ => false
  end.

(** Where [\n---\s*\n] matches. *)
Definition closing_at (s : pystr) : bool :=
  marker_follows s && line_ends (drop 4 s).

(** [\n---\s*\n] matches nowhere in [s]. *)
Fixpoint no_closing (s : pystr) : bool :=
  match s with
  | [] => true
  | _ :: s' => negb (closing_at s) && no_closing s'
  end.

(** No line break of [s] is followed by [---]. *)
Fixpoint no_marker_inside (s : pystr) : bool :=
  match s with
  | [] => true
  | _ :: s' => negb (marker_follows s) && no_marker_inside s'
  end.

Definition closing_res : list Re.regex :=
  [ Re.Lit NL; Re.lits (str "---"); Re.Star isspace; Re.Lit NL ].

Definition opening_res : list Re.regex := [ Re.Bos; Re.lits (str "---") ].

(** The state of the header's loop before its first line. *)
Definition yaml_start : yaml_state := YamlState ∅ None false.

(** ** Writing header lines *)

(** [sep.join(ls)]. *)
Fixpoint join (sep : pystr) (ls : list pystr) : pystr :=
  match ls with
  | [] => []
  | l :: ls' =>
      match ls' with
      | [] => l
      | _ :: _ => l ++ sep ++ join sep ls'
      end
  end.

(** What the header parser makes of one item of an inline list. *)
Definition clean_item (item : pystr) : pystr := strip_set QUOTES (strip item).

(** A key as the parser stores it: trimmed, without colon, not beginning
    with a dash. *)
Definition plain_key (key : pystr) : Prop :=
  (COLON ∉ key) ∧ strip key = key ∧ startswith DASH key = false.

(** A text that trimming and unquoting leave alone. *)
Definition plain_text (x : pystr) : Prop :=
  strip x = x ∧ strip_set QUOTES x = x.

(** What holds of the loop's state after any number of lines. *)
Definition yaml_invariant (st : yaml_state) : Prop :=
  (∀ k v, metadata st !! k = Some (VStr v) → v ≠ [] ∧ strip_set QUOTES v = v)
  ∧ (∀ k, is_Some (metadata st !! k) → strip k = k)
  ∧ (∀ k, current_key st = Some k → is_Some (metadata st !! k))
  ∧ (list_mode st = true ↔ is_Some (current_key st)).

(** ** The lines printed for one file *)


(** A header in which a list key is declared again as a scalar. *)
Definition redeclared_document : pystr :=
  unlines [ str "---"; str "tags:"; str "tags: dessert"; str "- sucre"; str "---" ].

(** The example files, with another text for the template. *)
Definition pantry (n : pystr) : option pystr :=
  if decide (n = str "_template.qmd") then Some no_header_document
  else if decide (n = str "tags.qmd") then Some redeclared_document
  else kitchen n.

(** A file system whose directory [recettes] enumerates [names], the
    files holding the texts of [files]. *)
Definition directory_of (files : pystr → option pystr) (names : list pystr)
    : filesystem :=
  FileSystem
    (λ d, if decide (d = RECETTES) then Some names else None)
    (λ p, match files (name p) with
          | Some text => Return text
          | None => Raise OSError
          end).

(** ** Tactics *)

(** Replace the literals of the goal by their code points. *)
Ltac norm_str :=
  repeat match goal with
         | |- context [str ?s] =>
             let v := eval vm_compute in (str s) in change (str s) with v
         end.

(** Close a goal by evaluation, an equation or a decidable proposition. *)
Ltac compute_it := vm_compute; reflexivity.
Ltac decide_it := apply (bool_decide_unpack _); vm_compute; reflexivity.

Section Indexer.

(** The interpreter's decimal-digit table for the code points from 127 on
    ([Py_UNICODE_TODECIMAL]); it belongs to the Unicode database the
    interpreter ships, not to the script. *)
Variable todecimal : N → option N.

(** *** int() *)

(** The ASCII image [int] takes of a character before it parses. *)
Definition to_ascii (c : N) : N :=
  if c <? 127 then c
  else if isspace c then 32
  else match todecimal c with
       | Some d => 48 + d
       | None => 63
       end.

(** White space for the integer parser: ASCII only. *)
Definition c_isspace (c : N) : bool := ((9 <=? c) && (c <=? 13)) || (c =? 32).

Definition digit (c : N) : option Z :=
  if (48 <=? c) && (c <=? 57) then Some (Z.of_N (c - 48)) else None.

(** The digits of a literal, single underscores allowed between them:
    the value read so far, whether a digit was seen, whether the last
    character was an underscore.  The result is the value and the text
    after the literal. *)
Fixpoint scan_digits (acc : Z) (seen last_us : bool) (s : pystr)
    : option (Z * pystr) :=
  let stop := if seen && negb last_us then Some (acc, s) else None in
  match s with
  | [] => stop
  | c :: s' =>
      match digit c with
      | Some d => scan_digits (acc * 10 + d) true false s'
      | None =>
          if c =? 95
          then if last_us || negb seen then None
               else scan_digits acc seen true s'
          else stop
      end
  end.

(** [int(s)] for a string: white space, a sign, digits, white space. *)
Definition int_of_str (s : pystr) : result Z :=
  let s := drop_while c_isspace (to_ascii <$> s) in
  let '(sign, s) :=
    match s with
    | c :: s' => if c =? 43 then (1%Z, s') else if c =? 45 then ((-1)%Z, s') else (1%Z, s)
    | [] => (1%Z, s)
    end in
  match scan_digits 0 false false s with
  | Some (n, s') => if is_empty (drop_while c_isspace s') then Return (sign * n)%Z
                    else Raise ValueError
  | None => Raise ValueError
  end.

(** *** parse_recipe_file *)

(** [metadata.get('categories', ['autre'])[0] if
    isinstance(metadata.get('categories'), list) else
    metadata.get('categories', 'autre')]. *)
Definition category_of (metadata : gmap pystr value) : result pystr :=
  match metadata !! str "categories" with
  | Some (VList l) =>
      match l with
      | first :: _ => Return first
      | [] => Raise IndexError
      end
  | Some (VStr s) => Return s
  | None => Return (str "autre")
  end.

(** [int(metadata.get('servings', 4))]. *)
Definition servings_of (metadata : gmap pystr value) : result Z :=
  match metadata !! str "servings" with
  | Some (VStr s) => int_of_str s
  | Some (VList _) => Raise TypeError
  | None => Return 4%Z
  end.

(** The body of the [try]. *)
Definition try_parse_recipe_file (fs : filesystem) (filepath : path)
    : result (list message * option recipe) :=
  content ←! read_text fs filepath;
  metadata ←! parse_yaml_frontmatter content;
  match metadata with
  | None => Return ([WARNING_no_frontmatter filepath], None)
  | Some metadata =>
      if decide (metadata = ∅)
      then Return ([WARNING_no_frontmatter filepath], None)
      else
        let ingredients := extract_ingredients content in
        let recipe_id := generate_recipe_id filepath in
        let recipe_title := default (VStr (str "Sans titre")) (metadata !! str "title") in
        recipe_category ←! category_of metadata;
        recipe_servings ←! servings_of metadata;
        Return ([], Some (Recipe recipe_id recipe_title recipe_category
                            recipe_servings ingredients))
  end.

(** What the call prints and what it returns. *)
Definition parse_recipe_file (fs : filesystem) (filepath : path)
    : list message * option recipe :=
  match try_parse_recipe_file fs filepath with
  | Return r => r
  | Raise e => ([ERROR_parsing filepath e], None)
  end.

(** *** generate_recipes_json *)

Definition TEMPLATE : pystr := str "_template.qmd".

(** The files the run handles, before sorting. *)
Definition discover (recipes_dir : pystr) (names : list pystr) : list path :=
  let qmd_files := Path recipes_dir <$> filter (λ n, glob_qmd n = true) names in
  filter (λ f, name f ≠ TEMPLATE) qmd_files.

(** One iteration of [for filepath in sorted(qmd_files)]: the events so
    far and the list [recipes]. *)
Definition process_file (fs : filesystem) (acc : list event * list recipe)
    (filepath : path) : list event * list recipe :=
  let '(events, recipes) := acc in
  let '(printed, r) := parse_recipe_file fs filepath in
  let events := events ++ [Print (PROCESSING (name filepath))] ++ (Print <$> printed) in
  match r with
  | Some r =>
      (events ++ [Print (OK (title r) (length (ingredients r)))], recipes ++ [r])
  | None => (events, recipes)
  end.

(** The script, from the test for the input directory on: [None] from
    [listdir] is [recipes_path.exists()] being false. *)
Definition generate_recipes_json (fs : filesystem)
    (recipes_dir output_file : pystr) : list event :=
  match listdir fs recipes_dir with
  | None => [Print (ERROR_no_directory recipes_dir)]
  | Some names =>
      let qmd_files := discover recipes_dir names in
      let '(events, recipes) :=
        foldl (process_file fs) ([Print (FOUND (length qmd_files))], [])
          (sorted qmd_files) in
      events
      ++ [ MkdirParents output_file;
           WriteText output_file (Json.dump recipes);
           Print (SUCCESS output_file);
           Print (TOTAL (length recipes)) ]
  end.

(** What one iteration prints. *)
Definition file_events (fs : filesystem) (filepath : path) : list event :=
  let '(printed, r) := parse_recipe_file fs filepath in
  [Print (PROCESSING (name filepath))] ++ (Print <$> printed)
  ++ match r with
     | Some r => [Print (OK (title r) (length (ingredients r)))]
     | None => []
     end.

(** What one iteration appends to [recipes]. *)
Definition file_recipe (fs : filesystem) (filepath : path) : option recipe :=
  (parse_recipe_file fs filepath).2.

(** The end of a run that reaches the serialization. *)
Definition epilogue (output_file : pystr) (recipes : list recipe) : list event :=
  [ MkdirParents output_file;
    WriteText output_file (Json.dump recipes);
    Print (SUCCESS output_file);
    Print (TOTAL (length recipes)) ].

(** The files of a list that give a record. *)
Definition sources (fs : filesystem) (files : list path) : list path :=
  filter (λ f, is_Some (file_recipe fs f)) files.

(** ** The order on file names *)

Lemma str_le_refl a : str_le a a = true.
Proof.
  induction a as [|x a IH]; simpl; [done|].
  rewrite N.eqb_refl, IH. by rewrite orb_true_r.
Qed.

Lemma str_le_total a b : str_le a b = true ∨ str_le b a = true.
Proof.
  revert b. induction a as [|x a IH]; intros [|y b]; simpl; auto.
  destruct (N.lt_trichotomy x y) as [Hlt|[->|Hgt]].
  - left. apply N.ltb_lt in Hlt. by rewrite Hlt.
  - rewrite N.eqb_refl, N.ltb_irrefl. simpl. apply IH.
  - right. apply N.ltb_lt in Hgt. by rewrite Hgt.
Qed.

Lemma str_le_trans a b c :
  str_le a b = true → str_le b c = true → str_le a c = true.
Proof.
  revert b c. induction a as [|x a IH]; intros [|y b] [|z c]; simpl; try done.
  intros Hab Hbc.
  apply orb_true_iff in Hab as [Hxy|[Hxy Hab]%andb_true_iff];
    apply orb_true_iff in Hbc as [Hyz|[Hyz Hbc]%andb_true_iff];
    rewrite ?N.ltb_lt, ?N.eqb_eq in *.
  - apply orb_true_iff. left. apply N.ltb_lt. lia.
  - subst. apply orb_true_iff. left. by apply N.ltb_lt.
  - subst. apply orb_true_iff. left. by apply N.ltb_lt.
  - subst. rewrite N.eqb_refl, (IH b c) by done. by rewrite orb_true_r.
Qed.

Lemma str_le_antisym a b : str_le a b = true → str_le b a = true → a = b.
Proof.
  revert b. induction a as [|x a IH]; intros [|y b]; simpl; try done.
  intros Hab Hba.
  apply orb_true_iff in Hab as [Hxy|[Hxy Hab]%andb_true_iff];
    apply orb_true_iff in Hba as [Hyx|[Hyx Hba]%andb_true_iff];
    rewrite ?N.ltb_lt, ?N.eqb_eq in *; try lia.
  subst. f_equal. by apply IH.
Qed.

Global Instance path_le_total : Total path_le.
Proof. intros f g. apply str_le_total. Qed.

Global Instance path_le_trans : Transitive path_le.
Proof. intros f g h. apply str_le_trans. Qed.

Lemma sorted_strongly (files : list path) : StronglySorted path_le (sorted files).
Proof. apply StronglySorted_merge_sort; apply _. Qed.

Lemma sorted_perm (files : list path) : sorted files ≡ₚ files.
Proof. apply merge_sort_Permutation. Qed.

(** ** The loop over the files *)

Lemma process_file_eq fs events recipes f :
  process_file fs (events, recipes) f =
  (events ++ file_events fs f, recipes ++ option_list (file_recipe fs f)).
Proof.
  unfold process_file, file_events, file_recipe.
  destruct (parse_recipe_file fs f) as [printed [r|]]; simpl.
  - by rewrite <-!(assoc_L (++)).
  - by rewrite !(right_id_L [] (++)).
Qed.

Lemma loop_eq fs files events recipes :
  foldl (process_file fs) (events, recipes) files =
  (events ++ (files ≫= file_events fs), recipes ++ omap (file_recipe fs) files).
Proof.
  revert events recipes. induction files as [|f files IH]; intros events recipes.
  - simpl. by rewrite !(right_id_L [] (++)).
  - cbn [foldl]. rewrite process_file_eq, IH, <-!(assoc_L (++)).
    f_equal. f_equal. cbn [omap list_omap].
    by destruct (file_recipe fs f).
Qed.

(** A run on an existing directory: the count, the iterations in sorted
    order, then the serialization of the records they produced. *)
Lemma run_eq fs recipes_dir output_file names :
  listdir fs recipes_dir = Some names →
  generate_recipes_json fs recipes_dir output_file =
  [Print (FOUND (length (discover recipes_dir names)))]
  ++ (sorted (discover recipes_dir names) ≫= file_events fs)
  ++ epilogue output_file (omap (file_recipe fs) (sorted (discover recipes_dir names))).
Proof.
  intros Hdir. unfold generate_recipes_json. rewrite Hdir.
  rewrite loop_eq. simpl. reflexivity.
Qed.

(** ** One document *)

Lemma parse_recipe_file_no_frontmatter fs f content :
  read_text fs f = Return content →
  parse_yaml_frontmatter content = Return None →
  parse_recipe_file fs f = ([WARNING_no_frontmatter f], None).
Proof.
  intros Hread Hparse. unfold parse_recipe_file, try_parse_recipe_file.
  rewrite Hread. cbn [bind]. by rewrite Hparse.
Qed.

Lemma parse_recipe_file_metadata fs f content md :
  read_text fs f = Return content →
  parse_yaml_frontmatter content = Return (Some md) →
  md ≠ ∅ →
  parse_recipe_file fs f =
  match category_of md, servings_of md with
  | Return c, Return n =>
      ([], Some (Recipe (stem f) (default (VStr (str "Sans titre")) (md !! str "title"))
                   c n (extract_ingredients content)))
  | Raise e, _ | Return _, Raise e => ([ERROR_parsing f e], None)
  end.
Proof.
  intros Hread Hparse Hne. unfold parse_recipe_file, try_parse_recipe_file.
  rewrite Hread. cbn [bind]. rewrite Hparse. cbn [bind].
  destruct (decide (md = ∅)) as [|_]; [done|].
  destruct (category_of md); cbn [bind]; [|done].
  by destruct (servings_of md).
Qed.

Lemma process_file_skips fs f events recipes printed :
  parse_recipe_file fs f = (printed, None) →
  process_file fs (events, recipes) f =
  (events ++ Print (PROCESSING (name f)) :: (Print <$> printed), recipes).
Proof. intros Hf. unfold process_file. by rewrite Hf. Qed.

Lemma lookup_nonempty (md : gmap pystr value) k v : md !! k = Some v → md ≠ ∅.
Proof. intros Hk ->. by rewrite lookup_empty in Hk. Qed.

(** C9: a document whose header markers are there but whose block gives
    no key/value entry (the metadata mapping is empty) is handled exactly
    like a document without a header: the missing-header warning is
    printed, no record is returned, and the iteration over it leaves the
    list of records as it was. *)
Theorem empty_metadata_treated_as_missing fs f content events recipes :
  read_text fs f = Return content →
  parse_yaml_frontmatter content = Return (Some ∅) →
  parse_recipe_file fs f = ([WARNING_no_frontmatter f], None)
  ∧ process_file fs (events, recipes) f =
      (events ++ [Print (PROCESSING (name f)); Print (WARNING_no_frontmatter f)],
       recipes)
  ∧ ∀ fs0 content0,
      read_text fs0 f = Return content0 →
      parse_yaml_frontmatter content0 = Return None →
      parse_recipe_file fs0 f = parse_recipe_file fs f.
Proof.
  intros Hread Hparse.
  assert (parse_recipe_file fs f = ([WARNING_no_frontmatter f], None)) as Hf.
  { unfold parse_recipe_file, try_parse_recipe_file. rewrite Hread. cbn [bind].
    rewrite Hparse. cbn [bind]. by destruct (decide (∅ = ∅)). }
  split; [done|]. split.
  - by rewrite (process_file_skips _ _ _ _ _ Hf).
  - intros fs0 content0 Hread0 Hparse0.
    by rewrite Hf, (parse_recipe_file_no_frontmatter _ _ _ Hread0 Hparse0).
Qed.

(** C10: when the metadata maps [categories] to the empty list (the key
    was declared in block-list mode and no item followed), taking the
    first element raises; the error is caught for that file, an error
    line is printed, no record is returned, and the category does not
    become the default ['autre']. *)
Theorem empty_categories_fail_document fs f content md events recipes :
  read_text fs f = Return content →
  parse_yaml_frontmatter content = Return (Some md) →
  md !! str "categories" = Some (VList []) →
  category_of md = Raise IndexError
  ∧ parse_recipe_file fs f = ([ERROR_parsing f IndexError], None)
  ∧ process_file fs (events, recipes) f =
      (events ++ [Print (PROCESSING (name f)); Print (ERROR_parsing f IndexError)],
       recipes).
Proof.
  intros Hread Hparse Hcat.
  assert (category_of md = Raise IndexError) as Hc.
  { unfold category_of. by rewrite Hcat. }
  assert (parse_recipe_file fs f = ([ERROR_parsing f IndexError], None)) as Hf.
  { rewrite (parse_recipe_file_metadata _ _ _ _ Hread Hparse (lookup_nonempty _ _ _ Hcat)).
    by rewrite Hc. }
  split; [done|]. split; [done|].
  by rewrite (process_file_skips _ _ _ _ _ Hf).
Qed.

(** C6: for a document whose header is parsed and has none of the keys
    [title], [categories] and [servings], every record the builder
    produces has the title ['Sans titre'], the category ['autre'] and 4
    servings; and it does produce one as soon as the header has any
    entry at all. *)
Theorem defaults_for_omitted_keys fs f content md :
  read_text fs f = Return content →
  parse_yaml_frontmatter content = Return (Some md) →
  md !! str "title" = None →
  md !! str "categories" = None →
  md !! str "servings" = None →
  (∀ printed r, parse_recipe_file fs f = (printed, Some r) →
     title r = VStr (str "Sans titre") ∧ category r = str "autre" ∧ servings r = 4%Z)
  ∧ (md ≠ ∅ →
     parse_recipe_file fs f =
     ([], Some (Recipe (stem f) (VStr (str "Sans titre")) (str "autre") 4
                  (extract_ingredients content)))).
Proof.
  intros Hread Hparse Htitle Hcat Hserv.
  assert (md ≠ ∅ →
     parse_recipe_file fs f =
     ([], Some (Recipe (stem f) (VStr (str "Sans titre")) (str "autre") 4
                  (extract_ingredients content)))) as Hrec.
  { intros Hne. rewrite (parse_recipe_file_metadata _ _ _ _ Hread Hparse Hne).
    unfold category_of, servings_of. by rewrite Htitle, Hcat, Hserv. }
  split; [|done].
  intros printed r Hf. destruct (decide (md = ∅)) as [->|Hne].
  - unfold parse_recipe_file, try_parse_recipe_file in Hf.
    rewrite Hread in Hf. cbn [bind] in Hf. rewrite Hparse in Hf. cbn [bind] in Hf.
    by destruct (decide (∅ = ∅)).
  - rewrite (Hrec Hne) in Hf. by simplify_eq.
Qed.

Lemma file_events_elem fs f printed r m :
  parse_recipe_file fs f = (printed, r) → m ∈ printed → Print m ∈ file_events fs f.
Proof.
  intros Hf Hm. unfold file_events. rewrite Hf.
  apply elem_of_app. right. apply elem_of_app. left.
  by apply list_elem_of_fmap_2.
Qed.

(** C2: a document whose header declares [servings] as a string that
    [int] rejects gives no record, and an error line naming the file is
    printed; the run still reaches the serialization, and the records it
    writes are exactly those of the other discovered documents that
    produce one. *)
Theorem non_numeric_servings_excluded fs recipes_dir output_file names f content md v :
  listdir fs recipes_dir = Some names →
  f ∈ discover recipes_dir names →
  read_text fs f = Return content →
  parse_yaml_frontmatter content = Return (Some md) →
  md !! str "servings" = Some (VStr v) →
  int_of_str v = Raise ValueError →
  ∃ e events recipes,
    parse_recipe_file fs f = ([ERROR_parsing f e], None)
    ∧ generate_recipes_json fs recipes_dir output_file
      = events ++ epilogue output_file recipes
    ∧ Print (ERROR_parsing f e) ∈ events
    ∧ ∀ r, r ∈ recipes ↔
           ∃ g, g ∈ discover recipes_dir names ∧ g ≠ f ∧ file_recipe fs g = Some r.
Proof.
  intros Hdir Hin Hread Hparse Hserv Hint.
  assert (∃ e, parse_recipe_file fs f = ([ERROR_parsing f e], None)) as [e Hf].
  { rewrite (parse_recipe_file_metadata _ _ _ _ Hread Hparse (lookup_nonempty _ _ _ Hserv)).
    unfold servings_of. rewrite Hserv, Hint.
    destruct (category_of md) as [c|e]; eauto. }
  exists e, ([Print (FOUND (length (discover recipes_dir names)))]
             ++ (sorted (discover recipes_dir names) ≫= file_events fs)),
    (omap (file_recipe fs) (sorted (discover recipes_dir names))).
  split; [done|]. split.
  { rewrite (run_eq _ _ _ _ Hdir). by rewrite <-(assoc_L (++)). }
  split.
  - apply elem_of_app. right. apply list_elem_of_bind. exists f. split.
    + eapply file_events_elem; [done|]. by left.
    + by rewrite sorted_perm.
  - intros r. rewrite list_elem_of_omap. split.
    + intros (g & Hg & Hr). exists g. rewrite sorted_perm in Hg.
      split; [done|]. split; [|done].
      intros ->. unfold file_recipe in Hr. by rewrite Hf in Hr.
    + intros (g & Hg & _ & Hr). exists g. by rewrite sorted_perm.
Qed.

(** C7: when the input directory does not exist the run prints the error
    and ends there: no directory is created and nothing is written. *)
Theorem missing_directory_writes_nothing fs recipes_dir output_file :
  listdir fs recipes_dir = None →
  generate_recipes_json fs recipes_dir output_file
  = [Print (ERROR_no_directory recipes_dir)]
  ∧ ∀ e, e ∈ generate_recipes_json fs recipes_dir output_file →
         (∀ p, e ≠ MkdirParents p) ∧ (∀ p text, e ≠ WriteText p text).
Proof.
  intros Hdir. unfold generate_recipes_json. rewrite Hdir.
  split; [done|]. intros e ->%list_elem_of_singleton. done.
Qed.

(** ** Discovery and sorting *)

Lemma discover_elem recipes_dir names f :
  f ∈ discover recipes_dir names ↔
  parent f = recipes_dir ∧ name f ∈ names
  ∧ glob_qmd (name f) = true ∧ name f ≠ TEMPLATE.
Proof.
  unfold discover. rewrite list_elem_of_filter, list_elem_of_fmap. split.
  - intros (Hne & n & -> & [Hglob Hn]%list_elem_of_filter). done.
  - intros (Hdir & Hn & Hglob & Hne). split; [done|].
    exists (name f). split; [by destruct f; simplify_eq/=|].
    by apply list_elem_of_filter.
Qed.

Lemma discover_perm recipes_dir names1 names2 :
  names1 ≡ₚ names2 → discover recipes_dir names1 ≡ₚ discover recipes_dir names2.
Proof. intros Hp. unfold discover. by rewrite Hp. Qed.

Global Instance Path_inj recipes_dir : Inj (=) (=) (Path recipes_dir).
Proof. intros n1 n2 Hn. by simplify_eq. Qed.

Lemma discover_NoDup recipes_dir names :
  NoDup names → NoDup (discover recipes_dir names).
Proof.
  intros Hnd. unfold discover.
  apply NoDup_filter, NoDup_fmap_2; [apply _|]. by apply NoDup_filter.
Qed.

(** Two enumerations of the same directory are sorted into the same
    list: paths of one directory that compare equal are equal. *)
Lemma sorted_unique recipes_dir (files1 files2 : list path) :
  (∀ f, f ∈ files1 → parent f = recipes_dir) →
  files1 ≡ₚ files2 → sorted files1 = sorted files2.
Proof.
  intros Hdir Hp.
  apply (StronglySorted_unique_strong path_le);
    [|apply sorted_strongly..|by rewrite !sorted_perm].
  intros f g Hf Hg Hfg Hgf.
  rewrite sorted_perm in Hf. rewrite sorted_perm, <-Hp in Hg.
  pose proof (Hdir _ Hf) as Hpf. pose proof (Hdir _ Hg) as Hpg.
  pose proof (str_le_antisym _ _ Hfg Hgf) as Hname.
  destruct f, g; by simplify_eq/=.
Qed.

Lemma sorted_discover_perm recipes_dir names1 names2 :
  names1 ≡ₚ names2 →
  sorted (discover recipes_dir names1) = sorted (discover recipes_dir names2).
Proof.
  intros Hp. apply (sorted_unique recipes_dir); [|by apply discover_perm].
  by intros f (? & _)%discover_elem.
Qed.

Lemma parse_recipe_file_ext fs1 fs2 f :
  read_text fs1 f = read_text fs2 f →
  parse_recipe_file fs1 f = parse_recipe_file fs2 f.
Proof.
  intros Hread. unfold parse_recipe_file, try_parse_recipe_file. by rewrite Hread.
Qed.

(** C8: the output is a function of the names and the contents of the
    input files.  Two runs over the same directory state, whatever order
    the directory is enumerated in, perform the same events, and so
    write the same JSON text. *)
Theorem run_is_deterministic fs1 fs2 recipes_dir output_file :
  (∀ p, read_text fs1 p = read_text fs2 p) →
  option_Forall2 (≡ₚ) (listdir fs1 recipes_dir) (listdir fs2 recipes_dir) →
  generate_recipes_json fs1 recipes_dir output_file
  = generate_recipes_json fs2 recipes_dir output_file.
Proof.
  intros Hread Hdir.
  unfold generate_recipes_json. destruct Hdir as [names1 names2 Hp|].
  - rewrite !loop_eq.
    rewrite (sorted_discover_perm _ _ _ Hp), (discover_perm _ _ _ Hp).
    cbn [fst snd].
    assert (∀ f, parse_recipe_file fs1 f = parse_recipe_file fs2 f) as Hparse.
    { intros f. apply parse_recipe_file_ext, Hread. }
    assert (∀ l : list path, omap (file_recipe fs1) l = omap (file_recipe fs2) l) as Hrec.
    { intros l. apply list_omap_ext, Forall2_same_length_lookup_2; [done|].
      intros i f g Hf Hg. simplify_eq. unfold file_recipe. by rewrite Hparse. }
    assert (∀ l : list path, l ≫= file_events fs1 = l ≫= file_events fs2) as Hev.
    { intros l. apply list_bind_ext; [|done].
      intros f. unfold file_events. by rewrite Hparse. }
    by rewrite Hrec, Hev.
  - done.
Qed.

(** ** Where the records come from *)

Lemma sources_recipes fs files :
  Forall2 (λ f r, file_recipe fs f = Some r) (sources fs files)
    (omap (file_recipe fs) files).
Proof.
  unfold sources. induction files as [|f files IH]; [constructor|].
  rewrite filter_cons. cbn [omap list_omap].
  destruct (decide (is_Some (file_recipe fs f))) as [[r Hr]|Hnone].
  - rewrite Hr. by constructor.
  - destruct (file_recipe fs f) eqn:Hr; [|done].
    exfalso. apply Hnone. by eexists.
Qed.

(** A record is only built from a header that was parsed and has an
    entry. *)
Lemma file_recipe_header fs f r :
  file_recipe fs f = Some r →
  ∃ content md,
    read_text fs f = Return content
    ∧ parse_yaml_frontmatter content = Return (Some md) ∧ md ≠ ∅.
Proof.
  unfold file_recipe, parse_recipe_file, try_parse_recipe_file.
  destruct (read_text fs f) as [content|]; cbn [bind]; [|done].
  destruct (parse_yaml_frontmatter content) as [[md|]|] eqn:Hparse;
    cbn [bind]; [|done..].
  destruct (decide (md = ∅)); [done|]. intros _. by exists content, md.
Qed.

(** C3: every record of the output comes from one discovered document,
    each document giving at most one record, and the header of that
    document was parsed; a document for which the header parser signals
    absence gives no record, and the warning for it is printed. *)
Theorem records_come_from_parsed_headers fs recipes_dir output_file names :
  listdir fs recipes_dir = Some names →
  NoDup names →
  ∃ events recipes documents,
    generate_recipes_json fs recipes_dir output_file
    = events ++ epilogue output_file recipes
    ∧ documents `sublist_of` sorted (discover recipes_dir names)
    ∧ NoDup documents
    ∧ Forall2 (λ f r,
        parse_recipe_file fs f = ([], Some r)
        ∧ (∃ content md,
             read_text fs f = Return content
             ∧ parse_yaml_frontmatter content = Return (Some md) ∧ md ≠ ∅))
        documents recipes
    ∧ ∀ f content,
        f ∈ discover recipes_dir names →
        read_text fs f = Return content →
        parse_yaml_frontmatter content = Return None →
        (f ∉ documents) ∧ Print (WARNING_no_frontmatter f) ∈ events.
Proof.
  intros Hdir Hnd.
  set (files := sorted (discover recipes_dir names)).
  exists ([Print (FOUND (length (discover recipes_dir names)))]
          ++ (files ≫= file_events fs)),
    (omap (file_recipe fs) files), (sources fs files).
  split. { rewrite (run_eq _ _ _ _ Hdir). by rewrite <-(assoc_L (++)). }
  split. { apply sublist_filter. }
  split.
  { apply NoDup_filter. unfold files. rewrite sorted_perm.
    by apply discover_NoDup. }
  split.
  { eapply Forall2_impl; [apply sources_recipes|].
    intros f r Hr. cbv beta in Hr. split; [|by eapply file_recipe_header].
    destruct (file_recipe_header _ _ _ Hr) as (content & md & Hread & Hparse & Hne).
    unfold file_recipe in Hr.
    rewrite (parse_recipe_file_metadata _ _ _ _ Hread Hparse Hne) in Hr |- *.
    destruct (category_of md); [|done]. destruct (servings_of md); [|done].
    by simplify_eq/=. }
  intros f content Hf Hread Hparse.
  pose proof (parse_recipe_file_no_frontmatter _ _ _ Hread Hparse) as Hnone.
  split.
  - unfold sources. rewrite list_elem_of_filter. intros [[r Hr] _].
    unfold file_recipe in Hr. by rewrite Hnone in Hr.
  - apply elem_of_app. right. apply list_elem_of_bind. exists f. split.
    + eapply file_events_elem; [done|]. by left.
    + unfold files. by rewrite sorted_perm.
Qed.

(** C5: the records are written in the sorted order of the file names,
    and the template never is among the files handled.  With the files
    b.qmd, a.qmd and _template.qmd enumerated in any order, a.qmd's
    record comes first, b.qmd's second, and there is no third. *)
Theorem records_in_sorted_name_order fs recipes_dir output_file names :
  listdir fs recipes_dir = Some names →
  ∃ events files,
    generate_recipes_json fs recipes_dir output_file
    = events ++ epilogue output_file (omap (file_recipe fs) files)
    ∧ StronglySorted path_le files
    ∧ files ≡ₚ discover recipes_dir names
    ∧ (∀ f, f ∈ files ↔
            parent f = recipes_dir ∧ name f ∈ names
            ∧ glob_qmd (name f) = true ∧ name f ≠ TEMPLATE)
    ∧ (names ≡ₚ [str "b.qmd"; str "a.qmd"; str "_template.qmd"] →
       files = [Path recipes_dir (str "a.qmd"); Path recipes_dir (str "b.qmd")]
       ∧ ∀ ra rb,
           file_recipe fs (Path recipes_dir (str "a.qmd")) = Some ra →
           file_recipe fs (Path recipes_dir (str "b.qmd")) = Some rb →
           omap (file_recipe fs) files = [ra; rb]).
Proof.
  intros Hdir.
  exists ([Print (FOUND (length (discover recipes_dir names)))]
          ++ (sorted (discover recipes_dir names) ≫= file_events fs)),
    (sorted (discover recipes_dir names)).
  split. { rewrite (run_eq _ _ _ _ Hdir). by rewrite <-(assoc_L (++)). }
  split; [apply sorted_strongly|].
  split; [apply sorted_perm|].
  split. { intros f. rewrite sorted_perm. apply discover_elem. }
  intros Hp.
  assert (sorted (discover recipes_dir names)
          = [Path recipes_dir (str "a.qmd"); Path recipes_dir (str "b.qmd")]) as ->.
  { rewrite (sorted_discover_perm _ _ _ Hp). by vm_compute. }
  split; [done|]. intros ra rb Ha Hb. cbn [omap list_omap]. by rewrite Ha, Hb.
Qed.

(** ** Facts about the matcher *)

Lemma star_greedy_ext p st s k1 k2 :
  (∀ st', k1 st' = k2 st') →
  Re.star_greedy p st s k1 = Re.star_greedy p st s k2.
Proof.
  intros Hk. revert st. induction s as [|c s IH]; intros st; simpl; [done|].
  by rewrite IH, Hk.
Qed.

Lemma star_lazy_ext p st s k1 k2 :
  (∀ st', k1 st' = k2 st') →
  Re.star_lazy p st s k1 = Re.star_lazy p st s k2.
Proof.
  intros Hk. revert st. induction s as [|c s IH]; intros st; simpl.
  - by rewrite Hk.
  - by rewrite IH, Hk.
Qed.

(** The matcher only looks at what its continuation returns. *)
Lemma exec_ext r st k1 k2 :
  (∀ st', k1 st' = k2 st') → Re.exec r st k1 = Re.exec r st k2.
Proof.
  revert st k1 k2.
  induction r as [|c|p| | |r1 IH1 r2 IH2|r1 IH1 r2 IH2|p|p|r IH|r IH];
    intros st k1 k2 Hk; cbn [Re.exec]; rewrite ?Hk; try done.
  - by destruct (Re.m_rest st) as [|x s']; [|rewrite Hk].
  - by destruct (Re.m_rest st) as [|x s']; [|rewrite Hk].
  - apply IH1. intros st'. by apply IH2.
  - by rewrite (IH1 st k1 k2 Hk), (IH2 st k1 k2 Hk).
  - by apply star_greedy_ext.
  - by apply star_lazy_ext.
  - apply IH. intros st'. by rewrite Hk.
Qed.

Lemma exec_seq_app rs1 rs2 st k :
  Re.exec (Re.seq (rs1 ++ rs2)) st k
  = Re.exec (Re.seq rs1) st (λ st', Re.exec (Re.seq rs2) st' k).
Proof.
  revert st k. induction rs1 as [|r rs1 IH]; intros st k; [done|].
  cbn [app Re.seq foldr Re.exec]. apply exec_ext. intros st'. apply IH.
Qed.

(** ** The ingredient pattern: the matcher computes these functions *)

Lemma exec_lookahead pos s g k :
  Re.exec lookahead_re (Re.MState pos s g) k
  = if section_end s then k (Re.MState pos s g) else None.
Proof.
  unfold lookahead_re. norm_str.
  destruct s as [|c1 [|c2 [|c3 s]]]; cbn; unfold HASH; try done.
  - by destruct (c1 =? NL).
  - by destruct (c1 =? NL), (c2 =? 35).
  - by destruct (c1 =? NL), (c2 =? 35), (c3 =? 35).
Qed.

Lemma section_text_take s : take (length (section_text s)) s = section_text s.
Proof.
  induction s as [|c s IH]; [done|]. cbn [section_text].
  destruct (section_end (c :: s)); [done|]. cbn [length take]. by rewrite IH.
Qed.

(** [(.*?)(?=\n##|\Z)] always matches, and takes [section_text]. *)
Lemma star_lazy_section s pos0 s0 pos g :
  Re.star_lazy Re.any (Re.MState pos s g) s
    (λ st', Re.exec lookahead_re
              (Re.MState (Re.m_pos st') (Re.m_rest st')
                 (Some (take (Re.m_pos st' - pos0) s0)))
              (λ st'', Re.exec Re.Eps st'' Some))
  = Some (Re.MState (pos + length (section_text s))
            (drop (length (section_text s)) s)
            (Some (take (pos + length (section_text s) - pos0) s0))).
Proof.
  revert pos. induction s as [|c s IH]; intros pos.
  - cbn. by rewrite Nat.add_0_r.
  - cbn [Re.star_lazy]. rewrite exec_lookahead. cbn [Re.m_pos Re.m_rest section_text].
    destruct (section_end (c :: s)).
    + cbn. by rewrite Nat.add_0_r.
    + unfold Re.advance. cbn [Re.any Re.m_pos Re.m_group]. rewrite IH.
      cbn [length drop]. by rewrite Nat.add_succ_r.
Qed.

Lemma exec_section pos s g :
  Re.exec (Re.seq [Re.Group (Re.StarLazy Re.any); lookahead_re])
    (Re.MState pos s g) Some
  = Some (Re.MState (pos + length (section_text s))
            (drop (length (section_text s)) s) (Some (section_text s))).
Proof.
  etrans; [exact (star_lazy_section s pos s pos g)|].
  replace (pos + length (section_text s) - pos)%nat
    with (length (section_text s)) by lia.
  by rewrite section_text_take.
Qed.

Lemma isspace_NL c : (c =? NL) = true → isspace c = true.
Proof. by intros ->%N.eqb_eq. Qed.

(** [\s*\n(.*?)(?=\n##|\Z)] after the heading's label: group 1 is the
    section text of what [after_heading] returns. *)
Lemma exec_after_heading s pos g :
  Re.m_group <$>
    Re.star_greedy isspace (Re.MState pos s g) s
      (λ st', Re.exec
                (Re.seq [Re.Lit NL; Re.Group (Re.StarLazy Re.any); lookahead_re])
                st' Some)
  = (λ r, Some (section_text r)) <$> after_heading s.
Proof.
  revert pos. induction s as [|c s IH]; intros pos; [done|].
  cbn [Re.star_greedy after_heading].
  assert (Re.exec
            (Re.seq [Re.Lit NL; Re.Group (Re.StarLazy Re.any); lookahead_re])
            (Re.MState pos (c :: s) g) Some
          = if c =? NL
            then Some (Re.MState (S pos + length (section_text s))
                         (drop (length (section_text s)) s)
                         (Some (section_text s)))
            else None) as Hk.
  { change (Re.seq [Re.Lit NL; Re.Group (Re.StarLazy Re.any); lookahead_re])
      with (Re.Seq (Re.Lit NL)
              (Re.seq [Re.Group (Re.StarLazy Re.any); lookahead_re])).
    cbn [Re.exec Re.m_rest]. destruct (c =? NL); [|done].
    unfold Re.advance. cbn [Re.m_pos Re.m_group]. apply exec_section. }
  destruct (isspace c) eqn:Hc.
  - specialize (IH (S pos)). unfold Re.advance. cbn [Re.m_pos Re.m_group].
    destruct (after_heading s) as [r|];
      destruct (Re.star_greedy _ _ s _) as [m|];
      cbn [fmap option_fmap option_map] in IH |- *; simplify_eq.
    + by rewrite IH.
    + rewrite Hk. by destruct (c =? NL).
  - rewrite Hk. destruct (c =? NL) eqn:Hnl; [|done].
    apply isspace_NL in Hnl. congruence.
Qed.

Lemma ingredients_re_eq :
  ingredients_re
  = Re.seq (heading_res
            ++ [Re.Star isspace]
            ++ [Re.Lit NL; Re.Group (Re.StarLazy Re.any); lookahead_re]).
Proof. reflexivity. Qed.

Lemma exec_heading t pos g k :
  Re.exec (Re.seq heading_res) (Re.MState pos (HEADING ++ t) g) k
  = k (Re.MState (length HEADING + pos) t g).
Proof. vm_compute. reflexivity. Qed.

Lemma exec_lits_ignorecase_fail label s pos g k :
  ci_prefix label s = false →
  Re.exec (Re.lits_ignorecase label) (Re.MState pos s g) k = None.
Proof.
  revert s pos. induction label as [|c label IH]; intros s pos; [done|].
  destruct s as [|x s]; [done|]. cbn [ci_prefix].
  change (Re.lits_ignorecase (c :: label))
    with (Re.Seq (Re.Cls (Re.ignorecase c)) (Re.lits_ignorecase label)).
  cbn [Re.exec Re.m_rest]. destruct (Re.ignorecase c x); [|done].
  cbn [andb]. apply IH.
Qed.

Lemma space_not_label c : isspace c = true → Re.ignorecase 73 c = false.
Proof.
  intros Hc. apply bool_decide_eq_false.
  unfold isspace in Hc.
  rewrite !orb_true_iff, !andb_true_iff, !N.leb_le, !N.eqb_eq in Hc.
  unfold Re.tolower.
  repeat match goal with
         | |- context [if ?b then _ else _] => destruct b eqn:?
         end;
    rewrite ?andb_true_iff, ?andb_false_iff, ?negb_true_iff, ?N.leb_le,
      ?N.leb_gt, ?N.eqb_eq, ?N.eqb_neq in *;
    vm_compute (Re.fixes _); rewrite !elem_of_cons, elem_of_nil; lia.
Qed.

Lemma star_greedy_label_fail s pos g k :
  ci_prefix LABEL (drop_while isspace s) = false →
  Re.star_greedy isspace (Re.MState pos s g) s
    (λ st', Re.exec (Re.lits_ignorecase LABEL) st' k) = None.
Proof.
  revert pos. induction s as [|c s IH]; intros pos Hs.
  - cbn [Re.star_greedy]. by apply exec_lits_ignorecase_fail.
  - cbn [Re.star_greedy]. cbn [drop_while] in Hs.
    destruct (isspace c) eqn:Hc.
    + unfold Re.advance. cbn [Re.m_pos Re.m_group]. rewrite (IH _ Hs).
      apply exec_lits_ignorecase_fail.
      change LABEL with (73 :: tail LABEL). cbn [ci_prefix].
      by rewrite (space_not_label c Hc).
    + by apply exec_lits_ignorecase_fail.
Qed.

(** The pattern fails where the label does not begin. *)
Lemma exec_ingredients_fail s pos g k :
  label_at s = false → Re.exec ingredients_re (Re.MState pos s g) k = None.
Proof.
  intros Hs. unfold ingredients_re. norm_str. fold LABEL.
  cbn [Re.seq foldr Re.lits fmap list_fmap Re.plus Re.exec Re.m_rest].
  destruct s as [|c1 s]; [done|]. unfold HASH in Hs.
  destruct (c1 =? 35) eqn:H1; [|done]. unfold Re.advance at 1.
  cbn [Re.m_rest]. destruct s as [|c2 s]; [done|].
  destruct (c2 =? 35) eqn:H2; [|done]. unfold Re.advance at 1.
  cbn [Re.m_rest]. destruct s as [|c3 s]; [done|].
  destruct (isspace c3) eqn:H3; [|done].
  cbn [label_at] in Hs. unfold HASH in Hs.
  rewrite H1, H2, H3 in Hs. cbn [andb] in Hs.
  unfold Re.advance. cbn [Re.m_pos Re.m_group Re.m_rest].
  exact (star_greedy_label_fail s _ _ _ Hs).
Qed.

Lemma search_skip pre s pos :
  label_free (length pre) (pre ++ s) = true →
  Re.search_from ingredients_re pos (pre ++ s)
  = Re.search_from ingredients_re (pos + length pre) s.
Proof.
  revert pos. induction pre as [|c pre IH]; intros pos Hpre.
  - by rewrite Nat.add_0_r.
  - cbn [length app label_free] in Hpre.
    apply andb_true_iff in Hpre as [Hc%negb_true_iff Hpre].
    cbn [app Re.search_from]. rewrite exec_ingredients_fail by done.
    rewrite IH by done. cbn [length]. by rewrite Nat.add_succ_r.
Qed.

Lemma label_free_no_hash pre s :
  HASH ∉ pre → label_free (length pre) (pre ++ s) = true.
Proof.
  induction pre as [|c pre IH]; [done|].
  intros [Hc Hpre]%not_elem_of_cons. cbn [length app label_free].
  rewrite (IH Hpre), andb_true_r. apply negb_true_iff.
  apply not_eq_sym, N.eqb_neq in Hc. unfold label_at.
  destruct (pre ++ s) as [|c2 [|c3 t]]; try done. by rewrite Hc.
Qed.

(** The extractor on a document where the label first begins at the
    heading [## Ingrédients]. *)
Lemma extract_ingredients_heading pre s r :
  label_free (length pre) (pre ++ HEADING ++ s) = true →
  after_heading s = Some r →
  extract_ingredients (pre ++ HEADING ++ s)
  = foldl ingredient_line [] (split NL (section_text r)).
Proof.
  intros Hpre Hs. unfold extract_ingredients, Re.re_search.
  rewrite search_skip by done.
  pose proof (exec_after_heading s (length HEADING + (0 + length pre)) None) as Hg.
  rewrite Hs in Hg. cbn [fmap option_fmap option_map] in Hg.
  destruct (Re.star_greedy _ _ s _) as [m|] eqn:Hm; [|done].
  assert (Re.exec ingredients_re
            (Re.MState (0 + length pre) (HEADING ++ s) None) Some = Some m) as Hexec.
  { rewrite ingredients_re_eq, exec_seq_app, exec_heading, exec_seq_app.
    cbn [Re.seq foldr Re.exec Re.m_rest] in Hm |- *. exact Hm. }
  destruct (HEADING ++ s) eqn:Hhs; [done|].
  cbn [Re.search_from]. rewrite Hexec. unfold Re.group1.
  injection Hg as ->. done.
Qed.

(** ** Lines and blank text *)

Lemma split_nonempty sep s : split sep s ≠ [].
Proof.
  destruct s as [|c s]; cbn [split]; [done|].
  destruct (c =? sep); [done|]. by destruct (split sep s).
Qed.

Lemma split_app_sep sep a b :
  split sep (a ++ sep :: b) = split sep a ++ split sep b.
Proof.
  induction a as [|c a IH]; cbn [app split].
  - by rewrite N.eqb_refl.
  - rewrite IH. destruct (c =? sep); [done|].
    pose proof (split_nonempty sep a). by destruct (split sep a).
Qed.

Lemma strip_blank s : blank s = true → strip s = [].
Proof.
  intros Hs. unfold strip, strip_chars, lstrip_chars, rstrip_chars.
  assert (drop_while isspace s = []) as ->; [|done].
  induction s as [|c s IH]; [done|].
  cbn [blank forallb] in Hs. apply andb_true_iff in Hs as [Hc Hs].
  cbn [drop_while]. rewrite Hc. by apply IH.
Qed.

Lemma blank_split s :
  blank s = true → Forall (λ l, blank l = true) (split NL s).
Proof.
  induction s as [|c s IH]; intros Hs; [by repeat constructor|].
  cbn [blank forallb] in Hs. apply andb_true_iff in Hs as [Hc Hs].
  specialize (IH Hs). cbn [split]. destruct (c =? NL).
  - by constructor.
  - pose proof (split_nonempty NL s).
    destruct (split NL s) as [|l ls]; [done|].
    apply Forall_cons in IH as [Hl Hls]. constructor; [|done].
    cbn [blank forallb]. by rewrite Hc.
Qed.

Lemma foldl_ingredient_line_blank acc lines :
  Forall (λ l, blank l = true) lines → foldl ingredient_line acc lines = acc.
Proof.
  induction 1 as [|l lines Hl _ IH]; [done|].
  cbn [foldl]. unfold ingredient_line at 2. by rewrite (strip_blank l Hl).
Qed.

(** Blank lines before the first item do not change the items. *)
Lemma dash_items_blank_lines w text :
  blank w = true → dash_items (w ++ NL :: text) = dash_items text.
Proof.
  intros Hw. unfold dash_items. rewrite split_app_sep, foldl_app.
  by rewrite (foldl_ingredient_line_blank _ _ (blank_split w Hw)).
Qed.

Lemma blank_app a b : blank (a ++ b) = blank a && blank b.
Proof. apply forallb_app. Qed.

(** Where [\s*\n] ends when white space [w] is followed by a character
    that is none. *)
Lemma after_heading_blank w c rest :
  blank w = true → isspace c = false →
  after_heading (w ++ c :: rest) = None
  ∨ ∃ w1 r, w = w1 ++ NL :: r
            ∧ after_heading (w ++ c :: rest) = Some (r ++ c :: rest).
Proof.
  intros Hw Hc. induction w as [|y w IH].
  - left. cbn [app after_heading]. by rewrite Hc.
  - cbn [blank forallb] in Hw. apply andb_true_iff in Hw as [Hy Hw].
    cbn [app after_heading]. rewrite Hy.
    destruct (IH Hw) as [->|(w1 & r & -> & ->)].
    + destruct (y =? NL) eqn:Hnl; [|by left].
      apply N.eqb_eq in Hnl as ->. right. by exists [], w.
    + right. by exists (y :: w1), r.
Qed.

Lemma no_heading_inside_app a b :
  no_heading_inside (a ++ b) = true → no_heading_inside b = true.
Proof.
  induction a as [|c a IH]; [done|]. cbn [app no_heading_inside].
  by intros [_ H]%andb_true_iff; apply IH.
Qed.

(** A text without heading inside, followed by the end of the document
    or by a line that begins with [##], is the section text. *)
Lemma section_text_app u tail :
  no_heading_inside u = true →
  tail = [] ∨ heading_follows tail = true →
  section_text (u ++ tail) = u.
Proof.
  intros Hu Htail. induction u as [|x u IH].
  - destruct Htail as [->|Htail]; [done|].
    destruct tail as [|c tail]; [done|].
    cbn [app section_text]. unfold section_end. by rewrite Htail.
  - cbn [no_heading_inside] in Hu. apply andb_true_iff in Hu as [Hx Hu].
    apply negb_true_iff in Hx. cbn [app section_text].
    assert (section_end (x :: u ++ tail) = false) as ->.
    { unfold section_end. cbn [is_empty orb].
      destruct u as [|a [|b u]]; [| |exact Hx].
      - destruct Htail as [->|Htail]; [done|].
        destruct tail as [|t1 [|t2 [|t3 tail]]]; try done.
        cbn in Htail |- *.
        apply andb_true_iff in Htail as [[->%N.eqb_eq _]%andb_true_iff _].
        by rewrite andb_false_r.
      - destruct Htail as [->|Htail]; [done|].
        destruct tail as [|t1 [|t2 [|t3 tail]]]; try done.
        cbn in Htail |- *.
        apply andb_true_iff in Htail as [[->%N.eqb_eq _]%andb_true_iff _].
        by rewrite andb_false_r. }
    f_equal. by apply IH.
Qed.

Lemma blank_false_split s :
  blank s = false →
  ∃ w c s', s = w ++ c :: s' ∧ blank w = true ∧ isspace c = false.
Proof.
  induction s as [|x s IH]; [done|]. cbn [blank forallb].
  destruct (isspace x) eqn:Hx.
  - intros (w & c & s' & -> & Hw & Hc)%IH. exists (x :: w), c, s'.
    split; [done|]. split; [|done]. cbn [blank forallb]. by rewrite Hx.
  - intros _. by exists [], x, s.
Qed.


(** ** The header of the round trip *)

Lemma frontmatter_re_eq :
  frontmatter_re = Re.seq (front_res ++ [Re.Star isspace; Re.Lit NL]).
Proof. reflexivity. Qed.

Lemma star_greedy_keeps_group p s pos g k :
  (∀ st m, k st = Some m → Re.m_group m = Re.m_group st) →
  ∀ m, Re.star_greedy p (Re.MState pos s g) s k = Some m → Re.m_group m = g.
Proof.
  intros Hk. revert pos. induction s as [|c s IH]; intros pos m; cbn [Re.star_greedy].
  - by intros ?%Hk.
  - destruct (p c); [|by intros ?%Hk].
    unfold Re.advance. cbn [Re.m_pos Re.m_group].
    destruct (Re.star_greedy p _ s k) as [m'|] eqn:Hm'.
    + intros [= <-]. by eapply IH.
    + by intros ?%Hk.
Qed.

(** [\s*\n] at a line break: it matches, and leaves group 1 alone. *)
Lemma exec_trailing_newline pos s g :
  ∃ m, Re.exec (Re.seq [Re.Star isspace; Re.Lit NL]) (Re.MState pos (NL :: s) g) Some
       = Some m ∧ Re.m_group m = g.
Proof.
  cbn [Re.seq foldr Re.exec Re.m_rest].
  set (k := λ st' : Re.mstate, match Re.m_rest st' with [] => _ | _ :: _ => _ end).
  assert (∀ st m, k st = Some m → Re.m_group m = Re.m_group st) as Hk.
  { intros [pos' [|x s'] g'] m; unfold k; cbn; [done|].
    destruct (x =? NL); [|done]. by intros [= <-]. }
  destruct (Re.star_greedy isspace (Re.MState pos (NL :: s) g) (NL :: s) k)
    as [m|] eqn:Hm.
  - exists m. split; [done|]. by eapply star_greedy_keeps_group.
  - exfalso. cbn [Re.star_greedy] in Hm. change (isspace NL) with true in Hm.
    cbn match in Hm. destruct (Re.star_greedy isspace _ s k); [done|].
    unfold k in Hm. cbn in Hm. done.
Qed.

Lemma exec_soup_front body k m :
  k (Re.MState (length soup_header - 1) (NL :: body) (Some soup_yaml)) = Some m →
  Re.exec (Re.seq front_res) (Re.MState 0 (soup_header ++ body) None) k = Some m.
Proof. intros Hk. vm_compute in Hk. vm_compute. by rewrite Hk. Qed.

Lemma soup_frontmatter body :
  parse_yaml_frontmatter (soup_header ++ body) = Return (Some soup_metadata).
Proof.
  unfold parse_yaml_frontmatter, Re.re_match.
  destruct (exec_trailing_newline (length soup_header - 1) body (Some soup_yaml))
    as (m & Hm & Hg).
  rewrite frontmatter_re_eq, exec_seq_app, (exec_soup_front _ _ _ Hm).
  unfold Re.group1. rewrite Hg. by vm_compute.
Qed.

Lemma rfind_app c a b i :
  rfind c b = Some i → rfind c (a ++ b) = Some (length a + i)%nat.
Proof.
  intros Hb. induction a as [|x a IH]; [done|].
  cbn [app rfind]. by rewrite IH.
Qed.

(** The stem of [base.qmd] is [base]. *)
Lemma stem_qmd recipes_dir base :
  base ≠ [] → stem (Path recipes_dir (base ++ str ".qmd")) = base.
Proof.
  intros Hbase. unfold stem. cbn [name].
  rewrite (rfind_app DOT base (str ".qmd") 0) by done.
  rewrite Nat.add_0_r, length_app. change (length (str ".qmd")) with 4%nat.
  rewrite bool_decide_eq_true_2 by (destruct base; [done|cbn; lia]).
  rewrite bool_decide_eq_true_2 by lia. cbn [andb].
  by rewrite take_app_length.
Qed.

(** ** The section of ingredients and the example of the soup *)

(** C4, as the code has it: in a document where the label first begins
    at the heading [## Ingrédients], with a section that is not blank,
    the extractor collects the dash items of the text between the
    heading's line and the next line break followed by [##] (a heading
    of the same or of a deeper level), or the end of the document when
    there is none.  Dash items after a [###] sub-heading are thus left
    out, and a [#] heading does not end the section. *)
Theorem ingredients_section_ends_at_double_hash pre sec tail :
  label_free (length pre) (pre ++ str "## Ingrédients" ++ NL :: sec ++ tail) = true →
  blank sec = false →
  no_heading_inside sec = true →
  tail = [] ∨ heading_follows tail = true →
  extract_ingredients (pre ++ str "## Ingrédients" ++ NL :: sec ++ tail)
  = dash_items sec.
Proof.
  fold HEADING.
  intros Hpre (w & c & sec' & -> & Hw & Hc)%blank_false_split Hsec Htail.
  assert (blank (NL :: w) = true) as Hw'.
  { change (blank (NL :: w)) with (isspace NL && blank w). by rewrite Hw. }
  destruct (after_heading_blank (NL :: w) c (sec' ++ tail) Hw' Hc)
    as [Hnone|(w1 & r & Hsplit & Hafter)].
  { cbn [app after_heading] in Hnone. change (isspace NL) with true in Hnone.
    by destruct (after_heading (w ++ c :: sec' ++ tail)). }
  replace (NL :: (w ++ c :: sec') ++ tail)
    with ((NL :: w) ++ c :: sec' ++ tail)
    by (by rewrite <-(assoc_L (++) w)).
  replace (NL :: (w ++ c :: sec') ++ tail)
    with ((NL :: w) ++ c :: sec' ++ tail) in Hpre
    by (by rewrite <-(assoc_L (++) w)).
  rewrite (extract_ingredients_heading pre _ _ Hpre Hafter).
  assert (no_heading_inside (r ++ c :: sec') = true
          ∧ dash_items (w ++ c :: sec') = dash_items (r ++ c :: sec')) as [Hr Hitems].
  { destruct w1 as [|y w1]; simplify_eq/=; [done|].
    rewrite <-(assoc_L (++) w1), <-app_comm_cons in Hsec |- *.
    split.
    - apply no_heading_inside_app in Hsec. cbn [no_heading_inside] in Hsec.
      by apply andb_true_iff in Hsec as [_ Hsec].
    - apply dash_items_blank_lines.
      rewrite blank_app in Hw. by apply andb_true_iff in Hw as [Hw _]. }
  rewrite Hitems. unfold dash_items.
  replace (r ++ c :: sec' ++ tail) with ((r ++ c :: sec') ++ tail)
    by (by rewrite <-(assoc_L (++))).
  by rewrite (section_text_app _ _ Hr Htail).
Qed.

(** C1: the document of the specification's round trip, under any file
    name [base.qmd], with any text free of [#] between the header and
    the heading, and ending after the two items or going on with a line
    that begins with [##], gives exactly the record with the id [base],
    the title Soup, the category dinner, 2 servings and the two
    ingredients. *)
Theorem soup_document_record fs recipes_dir base gap rest :
  base ≠ [] →
  HASH ∉ gap →
  rest = [] ∨ (∃ r, rest = HASH :: HASH :: r) →
  read_text fs (Path recipes_dir (base ++ str ".qmd"))
  = Return (soup_header ++ gap ++ soup_section ++ rest) →
  parse_recipe_file fs (Path recipes_dir (base ++ str ".qmd"))
  = ([], Some (Recipe base (VStr (str "Soup")) (str "dinner") 2
                 [str "2 carrots"; str "1 onion"])).
Proof.
  intros Hbase Hgap Hrest Hread.
  pose proof (soup_frontmatter (gap ++ soup_section ++ rest)) as Hparse.
  assert (soup_metadata ≠ ∅) as Hne.
  { apply (lookup_nonempty _ (str "title") (VStr (str "Soup"))). by vm_compute. }
  rewrite (parse_recipe_file_metadata _ _ _ _ Hread Hparse Hne).
  assert (category_of soup_metadata = Return (str "dinner")) as -> by (by vm_compute).
  assert (servings_of soup_metadata = Return 2%Z) as -> by (by vm_compute).
  assert (soup_metadata !! str "title" = Some (VStr (str "Soup"))) as ->
      by (by vm_compute).
  rewrite (stem_qmd _ _ Hbase). cbn [default]. do 3 f_equal.
  assert (HASH ∉ soup_header ++ gap) as Hpre.
  { rewrite elem_of_app. intros [Hh|Hg]; [|done].
    revert Hh. apply (bool_decide_unpack (HASH ∉ soup_header)). by vm_compute. }
  rewrite (assoc_L (++) soup_header gap).
  destruct Hrest as [->|[r ->]].
  - change (soup_section ++ [])
      with (HEADING ++ NL :: unlines [str "- 2 carrots"; str "- 1 onion"]).
    rewrite (extract_ingredients_heading _ _
               (unlines [str "- 2 carrots"; str "- 1 onion"]));
      [compute_it|by apply label_free_no_hash|compute_it].
  - change (soup_section ++ HASH :: HASH :: r)
      with (HEADING ++ NL :: unlines [str "- 2 carrots"; str "- 1 onion"]
              ++ HASH :: HASH :: r).
    rewrite (extract_ingredients_heading _ _
               (unlines [str "- 2 carrots"; str "- 1 onion"] ++ HASH :: HASH :: r));
      [compute_it|by apply label_free_no_hash|compute_it].
Qed.

(** ** More on discovery and on the run *)

Lemma discover_nil recipes_dir names :
  (∀ n, n ∈ names → glob_qmd n = false ∨ n = TEMPLATE) →
  discover recipes_dir names = [].
Proof.
  intros Hnames. unfold discover. induction names as [|n names IH]; [done|].
  rewrite filter_cons. destruct (decide (glob_qmd n = true)) as [Hglob|_].
  - cbn [fmap list_fmap]. rewrite filter_cons.
    destruct (decide (name (Path recipes_dir n) ≠ TEMPLATE)) as [Hne|_].
    + destruct (Hnames n) as [Hn|Hn]; [by left|congruence|done].
    + apply IH. intros m Hm. apply Hnames. by right.
  - apply IH. intros m Hm. apply Hnames. by right.
Qed.

Lemma discover_length recipes_dir names :
  length (discover recipes_dir names)
  = length (filter (λ n, glob_qmd n = true ∧ n ≠ TEMPLATE) names).
Proof.
  unfold discover. induction names as [|n names IH]; [done|].
  rewrite !filter_cons. destruct (decide (glob_qmd n = true)) as [Hglob|Hglob].
  - cbn [fmap list_fmap]. rewrite filter_cons. cbn [name].
    destruct (decide (n ≠ TEMPLATE)) as [Hne|Hne].
    + rewrite decide_True by done. cbn [length]. by rewrite IH.
    + rewrite decide_False by (by intros [_ ?]). done.
  - rewrite decide_False by (by intros [? _]). done.
Qed.

Lemma sorted_nil : sorted [] = [].
Proof. reflexivity. Qed.

Lemma length_omap_le {A B} (g : A → option B) (l : list A) :
  (length (omap g l) ≤ length l)%nat.
Proof.
  induction l as [|x l IH]; [done|]. cbn [omap list_omap].
  destruct (g x); cbn [length]; lia.
Qed.

(** The two counts the run prints: the number of entries that end in
    [.qmd] and are not the template, and the number of records written,
    which is never larger. *)
Theorem run_reports_counts fs recipes_dir output_file names :
  listdir fs recipes_dir = Some names →
  ∃ events recipes,
    generate_recipes_json fs recipes_dir output_file
    = Print (FOUND (length (filter (λ n, glob_qmd n = true ∧ n ≠ TEMPLATE) names)))
      :: events
      ++ [ MkdirParents output_file;
           WriteText output_file (Json.dump recipes);
           Print (SUCCESS output_file);
           Print (TOTAL (length recipes)) ]
    ∧ (length recipes
       ≤ length (filter (λ n, glob_qmd n = true ∧ n ≠ TEMPLATE) names))%nat.
Proof.
  intros Hdir.
  exists (sorted (discover recipes_dir names) ≫= file_events fs),
    (omap (file_recipe fs) (sorted (discover recipes_dir names))).
  split.
  - rewrite (run_eq _ _ _ _ Hdir), discover_length. done.
  - rewrite <-(discover_length recipes_dir).
    etrans; [apply length_omap_le|]. by rewrite sorted_perm.
Qed.

(** A directory without recipe documents still gets its output file: the
    empty array. *)
Theorem run_without_documents_writes_empty_array fs recipes_dir output_file names :
  listdir fs recipes_dir = Some names →
  (∀ n, n ∈ names → glob_qmd n = false ∨ n = TEMPLATE) →
  generate_recipes_json fs recipes_dir output_file
  = [ Print (FOUND 0);
      MkdirParents output_file;
      WriteText output_file (str "[]");
      Print (SUCCESS output_file);
      Print (TOTAL 0) ].
Proof.
  intros Hdir Hnames.
  rewrite (run_eq _ _ _ _ Hdir), (discover_nil _ _ Hnames). reflexivity.
Qed.

(** The run reads the discovered files and no other: what the template and
    the entries that do not end in [.qmd] hold has no influence. *)
Theorem run_reads_only_discovered_files fs1 fs2 recipes_dir output_file names :
  listdir fs1 recipes_dir = Some names →
  listdir fs2 recipes_dir = Some names →
  (∀ n, n ∈ names → glob_qmd n = true → n ≠ TEMPLATE →
        read_text fs1 (Path recipes_dir n) = read_text fs2 (Path recipes_dir n)) →
  generate_recipes_json fs1 recipes_dir output_file
  = generate_recipes_json fs2 recipes_dir output_file.
Proof.
  intros Hdir1 Hdir2 Hread.
  rewrite (run_eq _ _ _ _ Hdir1), (run_eq _ _ _ _ Hdir2).
  assert (Forall (λ f, parse_recipe_file fs1 f = parse_recipe_file fs2 f)
            (sorted (discover recipes_dir names))) as Hparse.
  { apply Forall_forall. intros f Hf. rewrite sorted_perm in Hf.
    apply discover_elem in Hf as (Hd & Hn & Hglob & Hne).
    apply parse_recipe_file_ext. destruct f as [d n]. simplify_eq/=.
    by apply Hread. }
  f_equal. f_equal.
  - apply Forall_bind_ext. eapply Forall_impl; [exact Hparse|].
    intros f Hf. unfold file_events. by rewrite Hf.
  - assert (omap (file_recipe fs1) (sorted (discover recipes_dir names))
            = omap (file_recipe fs2) (sorted (discover recipes_dir names))) as ->; [|done].
    induction Hparse as [|f l Hf _ IH]; [done|].
    assert (file_recipe fs1 f = file_recipe fs2 f) as Hrec
        by (unfold file_recipe; by rewrite Hf).
    cbn [omap list_omap]. by rewrite Hrec, IH.
Qed.

Lemma StronglySorted_filter {A} (R : relation A) (P : A → Prop)
    `{∀ x, Decision (P x)} (l : list A) :
  StronglySorted R l → StronglySorted R (filter P l).
Proof.
  induction 1 as [|x l Hl IH Hx]; [constructor|].
  rewrite filter_cons. destruct (decide (P x)); [|done].
  constructor; [done|]. apply Forall_forall. intros y [_ Hy]%list_elem_of_filter.
  rewrite Forall_forall in Hx. by apply Hx.
Qed.

Lemma sorted_filter recipes_dir (P : path → Prop) `{∀ f, Decision (P f)} files :
  (∀ f, f ∈ files → parent f = recipes_dir) →
  sorted (filter P files) = filter P (sorted files).
Proof.
  intros Hdir.
  apply (StronglySorted_unique_strong path_le);
    [|apply sorted_strongly|apply StronglySorted_filter, sorted_strongly
     |by rewrite !sorted_perm].
  intros f g Hf Hg Hfg Hgf.
  rewrite sorted_perm in Hf. apply list_elem_of_filter in Hf as [_ Hf].
  apply list_elem_of_filter in Hg as [_ Hg]. rewrite sorted_perm in Hg.
  pose proof (Hdir _ Hf). pose proof (Hdir _ Hg).
  pose proof (str_le_antisym _ _ Hfg Hgf).
  destruct f, g; by simplify_eq/=.
Qed.

Lemma discover_filter recipes_dir (n : pystr) names :
  discover recipes_dir (filter (λ m, m ≠ n) names)
  = filter (λ f, f ≠ Path recipes_dir n) (discover recipes_dir names).
Proof.
  unfold discover. induction names as [|m names IH]; [done|].
  rewrite (filter_cons (λ m, m ≠ n)).
  destruct (decide (m ≠ n)) as [Hne|Heq].
  - rewrite !(filter_cons (λ n, glob_qmd n = true)).
    destruct (decide (glob_qmd m = true)); [|done].
    cbn [fmap list_fmap]. rewrite !(filter_cons (λ f, name f ≠ TEMPLATE)).
    destruct (decide (name (Path recipes_dir m) ≠ TEMPLATE)); [|done].
    rewrite filter_cons, decide_True by congruence. by rewrite IH.
  - apply dec_stable in Heq as ->. rewrite IH.
    rewrite (filter_cons (λ n, glob_qmd n = true)).
    destruct (decide (glob_qmd n = true)); [|done].
    cbn [fmap list_fmap]. rewrite (filter_cons (λ f, name f ≠ TEMPLATE)).
    destruct (decide (name (Path recipes_dir n) ≠ TEMPLATE)); [|done].
    by rewrite filter_cons, decide_False by (by intros ?).
Qed.

Lemma omap_filter_none {A B} (g : A → option B) (P : A → Prop)
    `{∀ x, Decision (P x)} (l : list A) :
  (∀ x, ¬P x → g x = None) → omap g (filter P l) = omap g l.
Proof.
  intros Hg. induction l as [|x l IH]; [done|].
  rewrite filter_cons. destruct (decide (P x)) as [|Hx]; cbn [omap list_omap].
  - by rewrite IH.
  - by rewrite (Hg x Hx), IH.
Qed.

(** A document that gives no record does not change the output file:
    the run writes the same records as on the directory without it. *)
Theorem document_without_record_leaves_output_unchanged
    fs fs' recipes_dir output_file names n :
  listdir fs recipes_dir = Some names →
  listdir fs' recipes_dir = Some (filter (λ m, m ≠ n) names) →
  (∀ p, read_text fs p = read_text fs' p) →
  file_recipe fs (Path recipes_dir n) = None →
  ∃ events events' recipes,
    generate_recipes_json fs recipes_dir output_file
    = events ++ epilogue output_file recipes
    ∧ generate_recipes_json fs' recipes_dir output_file
      = events' ++ epilogue output_file recipes.
Proof.
  intros Hdir Hdir' Hread Hnone.
  exists ([Print (FOUND (length (discover recipes_dir names)))]
          ++ (sorted (discover recipes_dir names) ≫= file_events fs)),
    ([Print (FOUND (length (discover recipes_dir (filter (λ m, m ≠ n) names))))]
     ++ (sorted (discover recipes_dir (filter (λ m, m ≠ n) names)) ≫= file_events fs')),
    (omap (file_recipe fs) (sorted (discover recipes_dir names))).
  split. { rewrite (run_eq _ _ _ _ Hdir). by rewrite <-(assoc_L (++)). }
  rewrite (run_eq _ _ _ _ Hdir'), <-(assoc_L (++)). do 3 f_equal.
  rewrite discover_filter, (sorted_filter recipes_dir)
    by (by intros f (? & _)%discover_elem).
  rewrite omap_filter_none.
  - apply list_omap_ext, Forall2_same_length_lookup_2; [done|].
    intros i f g Hf Hg. simplify_eq. unfold file_recipe.
    by rewrite (parse_recipe_file_ext fs fs' f (Hread f)).
  - intros f Hf%dec_stable. subst f. unfold file_recipe in *.
    by rewrite <-(parse_recipe_file_ext fs fs' _ (Hread _)).
Qed.

(** ** Identifiers *)

Lemma glob_qmd_inv n :
  glob_qmd n = true → n = take (length n - 4) n ++ str ".qmd".
Proof.
  unfold glob_qmd, endswith. intros Hn%bool_decide_eq_true.
  change (length (str ".qmd")) with 4%nat in Hn.
  rewrite <-Hn. by rewrite take_drop.
Qed.

Lemma stem_glob_qmd recipes_dir n :
  glob_qmd n = true → n ≠ str ".qmd" →
  stem (Path recipes_dir n) ++ str ".qmd" = n.
Proof.
  intros Hglob Hne. pose proof (glob_qmd_inv n Hglob) as Hn.
  set (base := take (length n - 4) n) in *.
  rewrite Hn at 1. rewrite stem_qmd; [done|].
  intros Hbase. apply Hne. by rewrite Hn, Hbase.
Qed.

(** The identifier of a discovered file gives its name back when [.qmd]
    is put after it, except for the file named [.qmd] alone, whose
    identifier is its whole name. *)
Theorem recipe_id_round_trip recipes_dir n :
  glob_qmd n = true →
  (n ≠ str ".qmd" → generate_recipe_id (Path recipes_dir n) ++ str ".qmd" = n)
  ∧ (n = str ".qmd" → generate_recipe_id (Path recipes_dir n) = str ".qmd").
Proof.
  intros Hglob. split.
  - by apply stem_glob_qmd.
  - by intros ->.
Qed.

Lemma file_recipe_id fs f r : file_recipe fs f = Some r → id r = stem f.
Proof.
  intros Hr.
  destruct (file_recipe_header _ _ _ Hr) as (content & md & Hread & Hparse & Hne).
  unfold file_recipe in Hr.
  rewrite (parse_recipe_file_metadata _ _ _ _ Hread Hparse Hne) in Hr.
  destruct (category_of md); [|done]. destruct (servings_of md); [|done].
  by simplify_eq/=.
Qed.

Lemma omap_ids_NoDup fs recipes_dir files :
  NoDup files →
  Forall (λ f, parent f = recipes_dir ∧ glob_qmd (name f) = true
               ∧ name f ≠ str ".qmd") files →
  NoDup (id <$> omap (file_recipe fs) files).
Proof.
  intros Hnd Hfiles. induction Hnd as [|f files Hf Hnd IH]; [constructor|].
  apply Forall_cons in Hfiles as [(Hd & Hglob & Hne) Hfiles].
  cbn [omap list_omap]. destruct (file_recipe fs f) as [r|] eqn:Hr; [|by apply IH].
  cbn [fmap list_fmap]. constructor; [|by apply IH].
  intros (r' & Hid & (g & Hg & Hr')%list_elem_of_omap)%list_elem_of_fmap.
  rewrite Forall_forall in Hfiles. destruct (Hfiles g Hg) as (Hd' & Hglob' & Hne').
  apply file_recipe_id in Hr, Hr'. rewrite Hr, Hr' in Hid.
  apply Hf. assert (f = g) as ->; [|done].
  pose proof (stem_glob_qmd (parent f) (name f) Hglob Hne) as Hnf.
  pose proof (stem_glob_qmd (parent g) (name g) Hglob' Hne') as Hng.
  destruct f as [df nf], g as [dg ng]. cbn [parent name] in *.
  unfold stem in Hid, Hnf, Hng. cbn [name] in Hid, Hnf, Hng.
  rewrite Hid, Hng in Hnf. by subst.
Qed.

(** In a directory with distinct entry names, none of them [.qmd] alone,
    the records of the output have distinct identifiers. *)
Theorem output_ids_are_distinct fs recipes_dir output_file names :
  listdir fs recipes_dir = Some names →
  NoDup names →
  str ".qmd" ∉ names →
  ∃ events recipes,
    generate_recipes_json fs recipes_dir output_file
    = events ++ epilogue output_file recipes
    ∧ NoDup (id <$> recipes).
Proof.
  intros Hdir Hnd Hqmd.
  exists ([Print (FOUND (length (discover recipes_dir names)))]
          ++ (sorted (discover recipes_dir names) ≫= file_events fs)),
    (omap (file_recipe fs) (sorted (discover recipes_dir names))).
  split. { rewrite (run_eq _ _ _ _ Hdir). by rewrite <-(assoc_L (++)). }
  apply (omap_ids_NoDup fs recipes_dir).
  - rewrite sorted_perm. by apply discover_NoDup.
  - apply Forall_forall. intros f Hf. rewrite sorted_perm in Hf.
    apply discover_elem in Hf as (Hd & Hn & Hglob & _).
    split; [done|]. split; [done|]. by intros Heq; rewrite Heq in Hn.
Qed.

(** ** Trimming *)

Lemma drop_while_blank p w s :
  forallb p w = true → drop_while p (w ++ s) = drop_while p s.
Proof.
  induction w as [|c w IH]; [done|]. cbn [forallb app drop_while].
  intros [-> Hw]%andb_true_iff. by apply IH.
Qed.

Lemma drop_while_split p s :
  ∃ w, s = w ++ drop_while p s ∧ forallb p w = true.
Proof.
  induction s as [|c s (w & Hs & Hw)]; [by exists []|].
  cbn [drop_while]. destruct (p c) eqn:Hc.
  - exists (c :: w). cbn [forallb app]. rewrite Hc, Hw. by rewrite <-Hs.
  - by exists [].
Qed.

Lemma drop_while_stop p s c r : drop_while p s = c :: r → p c = false.
Proof.
  induction s as [|x s IH]; [done|]. cbn [drop_while].
  destruct (p x) eqn:Hx; [done|]. by intros [= <- _].
Qed.

Lemma drop_while_head p c s : p c = false → drop_while p (c :: s) = c :: s.
Proof. intros Hc. cbn [drop_while]. by rewrite Hc. Qed.

Lemma drop_while_app p s b :
  drop_while p s ≠ [] → drop_while p (s ++ b) = drop_while p s ++ b.
Proof.
  induction s as [|c s IH]; [done|]. cbn [app drop_while].
  destruct (p c); [done|]. done.
Qed.

Lemma drop_while_nil p s : forallb p s = true → drop_while p s = [].
Proof.
  intros Hs. rewrite <-(app_nil_r s). by rewrite drop_while_blank.
Qed.

Lemma forallb_rev {A} (p : A → bool) (l : list A) :
  forallb p (rev l) = forallb p l.
Proof.
  induction l as [|x l IH]; [done|]. cbn [rev forallb].
  rewrite forallb_app, IH. cbn [forallb]. by rewrite andb_true_r, andb_comm.
Qed.

Lemma rstrip_chars_blank p s w :
  forallb p w = true → rstrip_chars p (s ++ w) = rstrip_chars p s.
Proof.
  intros Hw. unfold rstrip_chars. rewrite rev_app_distr.
  by rewrite drop_while_blank by (by rewrite forallb_rev).
Qed.

Lemma rstrip_chars_split p s :
  ∃ w, s = rstrip_chars p s ++ w ∧ forallb p w = true.
Proof.
  unfold rstrip_chars. destruct (drop_while_split p (rev s)) as (w & Hs & Hw).
  exists (rev w). split; [|by rewrite forallb_rev].
  rewrite <-rev_app_distr, <-Hs. by rewrite rev_involutive.
Qed.

Lemma rstrip_chars_last p s c :
  p c = false → rstrip_chars p (s ++ [c]) = s ++ [c].
Proof.
  intros Hc. unfold rstrip_chars. rewrite rev_app_distr. cbn [rev app].
  rewrite drop_while_head by done. cbn [rev]. by rewrite rev_involutive.
Qed.

Lemma rstrip_chars_stop p s r c : rstrip_chars p s = r ++ [c] → p c = false.
Proof.
  unfold rstrip_chars. intros Hs.
  apply (f_equal (@rev N)) in Hs. rewrite rev_involutive, rev_app_distr in Hs.
  by apply drop_while_stop in Hs.
Qed.

Lemma rstrip_chars_idem p s :
  rstrip_chars p (rstrip_chars p s) = rstrip_chars p s.
Proof.
  destruct (rstrip_chars p s) as [|c r _] eqn:Hs using rev_ind; [done|].
  apply rstrip_chars_stop in Hs. by apply rstrip_chars_last.
Qed.

(** Trimming a padded text gives what trimming the text gives. *)
Lemma strip_chars_pad p a s b :
  forallb p a = true → forallb p b = true →
  strip_chars p (a ++ s ++ b) = strip_chars p s.
Proof.
  intros Ha Hb. unfold strip_chars, lstrip_chars.
  rewrite drop_while_blank by done.
  destruct (drop_while p s) as [|c r] eqn:Hs.
  - destruct (drop_while_split p s) as (w & Hw & Hp). rewrite Hs, app_nil_r in Hw.
    subst w. rewrite drop_while_blank by done. by rewrite drop_while_nil.
  - rewrite drop_while_app by (by rewrite Hs). rewrite Hs.
    by apply rstrip_chars_blank.
Qed.

Lemma strip_chars_idem p s :
  strip_chars p (strip_chars p s) = strip_chars p s.
Proof.
  unfold strip_chars, lstrip_chars.
  destruct (rstrip_chars_split p (drop_while p s)) as (w & Hs & Hw).
  destruct (rstrip_chars p (drop_while p s)) as [|c r] eqn:Hr; [done|].
  assert (p c = false) as Hc.
  { cbn [app] in Hs. by apply drop_while_stop in Hs. }
  rewrite drop_while_head by done. rewrite <-Hr. apply rstrip_chars_idem.
Qed.

(** A text that trimming leaves alone has nothing to trim at either end. *)
Lemma strip_chars_fix p s :
  strip_chars p s = s → drop_while p s = s ∧ rstrip_chars p s = s.
Proof.
  intros Hs. unfold strip_chars, lstrip_chars in Hs.
  destruct (drop_while_split p s) as (w & Hw & _).
  destruct (rstrip_chars_split p (drop_while p s)) as (w' & Hw' & _).
  assert (w = []) as ->.
  { apply (f_equal length) in Hw, Hw'. rewrite Hs in Hw'.
    rewrite length_app in Hw, Hw'. destruct w; [done|]. cbn [length] in Hw. lia. }
  cbn [app] in Hw. rewrite <-Hw in Hs. by rewrite <-Hw.
Qed.

Lemma elem_of_drop_while p s x : x ∈ drop_while p s → x ∈ s.
Proof.
  destruct (drop_while_split p s) as (w & Hs & _). intros Hx.
  rewrite Hs. apply elem_of_app. by right.
Qed.

Lemma elem_of_strip_chars p s x : x ∈ strip_chars p s → x ∈ s.
Proof.
  unfold strip_chars, lstrip_chars. intros Hx.
  apply (elem_of_drop_while p).
  destruct (rstrip_chars_split p (drop_while p s)) as (w & Hs & _).
  rewrite Hs. apply elem_of_app. by left.
Qed.

Lemma split_no_sep sep s l : l ∈ split sep s → sep ∉ l.
Proof.
  revert l. induction s as [|c s IH]; intros l; cbn [split].
  - intros ->%list_elem_of_singleton. apply not_elem_of_nil.
  - destruct (c =? sep) eqn:Hc.
    + intros [->|Hl]%elem_of_cons; [apply not_elem_of_nil|by apply IH].
    + pose proof (split_nonempty sep s).
      destruct (split sep s) as [|l0 ls]; [done|].
      intros [->|Hl]%elem_of_cons.
      * apply not_elem_of_cons. split.
        -- intros ->. by rewrite N.eqb_refl in Hc.
        -- apply IH. by left.
      * apply IH. by right.
Qed.

(** ** More on the ingredient section *)

Lemma search_none s pos :
  label_free (length s) s = true → Re.search_from ingredients_re pos s = None.
Proof.
  intros Hs. rewrite <-(app_nil_r s) in Hs |- *. rewrite app_nil_r in Hs at 1.
  rewrite search_skip by done. cbn [Re.search_from].
  by rewrite exec_ingredients_fail.
Qed.

(** A document in which the label never begins has no ingredients. *)
Theorem no_heading_no_ingredients content :
  label_free (length content) content = true →
  extract_ingredients content = [].
Proof.
  intros Hfree. unfold extract_ingredients, Re.re_search.
  by rewrite search_none.
Qed.

Lemma ingredient_line_elem acc line x :
  x ∈ ingredient_line acc line →
  x ∈ acc ∨ (x ≠ [] ∧ strip x = x ∧ ∀ c, c ∈ x → c ∈ line).
Proof.
  unfold ingredient_line. destruct (startswith DASH (strip line)); [|by left].
  destruct (is_empty (strip (tail (strip line)))) eqn:He; cbn [negb]; [by left|].
  intros [Hx| ->%list_elem_of_singleton]%elem_of_app; [by left|]. right.
  split; [by destruct (strip (tail (strip line)))|].
  split; [apply strip_chars_idem|].
  intros c Hc%elem_of_strip_chars. apply (elem_of_strip_chars isspace).
  fold (strip line). destruct (strip line) as [|d r]; [done|]. by right.
Qed.

Lemma foldl_ingredient_line_elem lines acc x :
  x ∈ foldl ingredient_line acc lines →
  x ∈ acc ∨ (x ≠ [] ∧ strip x = x ∧ ∃ line, line ∈ lines ∧ ∀ c, c ∈ x → c ∈ line).
Proof.
  revert acc. induction lines as [|line lines IH]; intros acc; [by left|].
  cbn [foldl]. intros [[Hx|(H1 & H2 & H3)]%ingredient_line_elem
                      |(H1 & H2 & l & Hl & H3)]%IH.
  - by left.
  - right. split; [done|]. split; [done|]. exists line. split; [by left|done].
  - right. split; [done|]. split; [done|]. exists l. split; [by right|done].
Qed.

(** Every ingredient the extractor returns is a non-empty text without
    white space at its ends and without line break. *)
Theorem ingredients_are_trimmed_and_not_empty content x :
  x ∈ extract_ingredients content →
  x ≠ [] ∧ strip x = x ∧ NL ∉ x.
Proof.
  unfold extract_ingredients.
  destruct (Re.re_search ingredients_re content) as [m|]; [|by intros ?%elem_of_nil].
  intros [?%elem_of_nil|(H1 & H2 & l & Hl & H3)]%foldl_ingredient_line_elem; [done|].
  split; [done|]. split; [done|].
  intros Hnl%H3. by apply split_no_sep in Hl.
Qed.

(** ** The heading in any case *)

Lemma exec_lits_ignorecase_ok label lab t pos g k :
  length lab = length label →
  ci_prefix label lab = true →
  Re.exec (Re.lits_ignorecase label) (Re.MState pos (lab ++ t) g) k
  = k (Re.MState (pos + length lab) t g).
Proof.
  revert lab pos. induction label as [|c label IH]; intros [|x lab] pos Hlen Hlab;
    try done.
  - cbn. by rewrite Nat.add_0_r.
  - cbn [ci_prefix] in Hlab. apply andb_true_iff in Hlab as [Hx Hlab].
    change (Re.lits_ignorecase (c :: label))
      with (Re.Seq (Re.Cls (Re.ignorecase c)) (Re.lits_ignorecase label)).
    cbn [app Re.exec Re.m_rest]. rewrite Hx. unfold Re.advance.
    cbn [Re.m_pos Re.m_group].
    rewrite (IH lab (S pos)); [|cbn [length] in Hlen; lia|done].
    cbn [length]. by rewrite Nat.add_succ_r, Nat.add_succ_l.
Qed.

Lemma label_not_space lab :
  ci_prefix LABEL lab = true → ∃ x r, lab = x :: r ∧ isspace x = false.
Proof.
  destruct lab as [|x r]; [done|]. change LABEL with (73 :: tail LABEL).
  cbn [ci_prefix]. intros [Hx _]%andb_true_iff. exists x, r. split; [done|].
  destruct (isspace x) eqn:Hs; [|done].
  by rewrite (space_not_label x Hs) in Hx.
Qed.

(** [\s+] before the label takes all the white space there is. *)
Lemma star_greedy_before_label ws lab t pos g k :
  blank ws = true →
  ci_prefix LABEL lab = true →
  Re.star_greedy isspace (Re.MState pos (ws ++ lab ++ t) g) (ws ++ lab ++ t)
    (λ st', Re.exec (Re.lits_ignorecase LABEL) st' k)
  = Re.exec (Re.lits_ignorecase LABEL)
      (Re.MState (pos + length ws) (lab ++ t) g) k.
Proof.
  intros Hws Hlab. destruct (label_not_space lab Hlab) as (x & r & -> & Hx).
  revert pos. induction ws as [|c ws IH]; intros pos.
  - cbn [app Re.star_greedy]. rewrite Hx. by rewrite Nat.add_0_r.
  - cbn [blank forallb] in Hws. apply andb_true_iff in Hws as [Hc Hws].
    cbn [app Re.star_greedy]. rewrite Hc. unfold Re.advance.
    cbn [Re.m_pos Re.m_group]. rewrite (IH Hws). cbn [length].
    rewrite Nat.add_succ_r. cbn [Nat.add].
    destruct (Re.exec _ (Re.MState (S (pos + length ws)) _ g) k); [done|].
    apply exec_lits_ignorecase_fail. change LABEL with (73 :: tail LABEL).
    cbn [ci_prefix]. by rewrite (space_not_label c Hc).
Qed.

(** The heading: [##], white space, the label in any case. *)
Lemma exec_any_heading ws lab t pos g k :
  ws ≠ [] → blank ws = true →
  length lab = length LABEL → ci_prefix LABEL lab = true →
  Re.exec (Re.seq heading_res) (Re.MState pos (str "##" ++ ws ++ lab ++ t) g) k
  = k (Re.MState (pos + length (str "##" ++ ws ++ lab)) t g).
Proof.
  intros Hne Hws Hlen Hlab. destruct ws as [|c ws]; [done|].
  cbn [blank forallb] in Hws. apply andb_true_iff in Hws as [Hc Hws].
  unfold heading_res. norm_str. fold LABEL.
  cbn [Re.seq foldr Re.lits fmap list_fmap Re.plus Re.exec Re.m_rest app].
  change (35 =? 35) with true. cbn match. unfold Re.advance at 1 2.
  cbn [Re.m_rest Re.m_pos Re.m_group]. change (35 =? 35) with true. cbn match.
  rewrite Hc. unfold Re.advance. cbn [Re.m_rest Re.m_pos Re.m_group].
  etrans; [apply (star_greedy_before_label ws lab t _ g); done|].
  rewrite exec_lits_ignorecase_ok by done. cbn [Re.exec].
  f_equal. f_equal. cbn [length]. rewrite length_app. lia.
Qed.

Lemma extract_ingredients_any_heading pre ws lab s r :
  ws ≠ [] → blank ws = true →
  length lab = length LABEL → ci_prefix LABEL lab = true →
  label_free (length pre) (pre ++ (str "##" ++ ws ++ lab) ++ s) = true →
  after_heading s = Some r →
  extract_ingredients (pre ++ (str "##" ++ ws ++ lab) ++ s)
  = foldl ingredient_line [] (split NL (section_text r)).
Proof.
  intros Hne Hws Hlen Hlab Hpre Hs. unfold extract_ingredients, Re.re_search.
  rewrite search_skip by done.
  set (h := str "##" ++ ws ++ lab).
  pose proof (exec_after_heading s (0 + length pre + length h) None) as Hg.
  rewrite Hs in Hg. cbn [fmap option_fmap option_map] in Hg.
  destruct (Re.star_greedy _ _ s _) as [m|] eqn:Hm; [|done].
  assert (Re.exec ingredients_re
            (Re.MState (0 + length pre) (h ++ s) None) Some = Some m) as Hexec.
  { rewrite ingredients_re_eq, exec_seq_app. unfold h.
    rewrite <-!(assoc_L (++)).
    rewrite (exec_any_heading ws lab s _ None _ Hne Hws Hlen Hlab), exec_seq_app.
    cbn [Re.seq foldr Re.exec Re.m_rest] in Hm |- *. exact Hm. }
  destruct (h ++ s) eqn:Hhs.
  { unfold h in Hhs. by change (str "##") with [35; 35] in Hhs. }
  cbn [Re.search_from]. rewrite Hexec. unfold Re.group1.
  injection Hg as ->. done.
Qed.

(** [\s*\n] ends on the last line break of the white space. *)
Lemma after_heading_last w c rest :
  blank w = true → isspace c = false →
  (after_heading (w ++ c :: rest) = None ∧ (NL ∉ w))
  ∨ ∃ w1 r, w = w1 ++ NL :: r ∧ (NL ∉ r)
            ∧ after_heading (w ++ c :: rest) = Some (r ++ c :: rest).
Proof.
  intros Hw Hc. induction w as [|y w IH].
  - left. cbn [app after_heading]. rewrite Hc. split; [done|apply not_elem_of_nil].
  - cbn [blank forallb] in Hw. apply andb_true_iff in Hw as [Hy Hw].
    cbn [app after_heading]. rewrite Hy.
    destruct (IH Hw) as [[-> Hnl]|(w1 & r & -> & Hnl & ->)].
    + destruct (y =? NL) eqn:Hynl.
      * apply N.eqb_eq in Hynl. subst y. right. by exists [], w.
      * left. split; [done|]. apply not_elem_of_cons. split; [|done].
        intros <-. by rewrite N.eqb_refl in Hynl.
    + right. by exists (y :: w1), r.
Qed.

Lemma last_line_break (a b w1 r : pystr) :
  a ++ NL :: b = w1 ++ NL :: r → NL ∉ r →
  (b = r) ∨ ∃ b1, b = b1 ++ NL :: r.
Proof.
  revert w1. induction a as [|x a IH]; intros [|y w1] Heq Hr; simplify_eq/=.
  - by left.
  - right. by exists w1.
  - exfalso. apply Hr. apply elem_of_app. right. by left.
  - by eapply IH.
Qed.

(** After the heading's label: white space up to a line break, the
    section, and the end of the document or a line that begins with
    [##]. *)
Lemma after_heading_section ws2 sec tail :
  blank ws2 = true →
  blank sec = false →
  no_heading_inside sec = true →
  tail = [] ∨ heading_follows tail = true →
  ∃ r, after_heading (ws2 ++ NL :: sec ++ tail) = Some r
       ∧ foldl ingredient_line [] (split NL (section_text r)) = dash_items sec.
Proof.
  intros Hws2 (w & c & sec' & -> & Hw & Hc)%blank_false_split Hsec Htail.
  assert (blank (ws2 ++ NL :: w) = true) as Hw'.
  { rewrite blank_app, Hws2. change (blank (NL :: w)) with (isspace NL && blank w).
    by rewrite Hw. }
  destruct (after_heading_last (ws2 ++ NL :: w) c (sec' ++ tail) Hw' Hc)
    as [[_ Hnl]|(w1 & r & Hsplit & Hnl & Hafter)].
  { exfalso. apply Hnl. apply elem_of_app. right. by left. }
  exists (r ++ c :: sec' ++ tail). split.
  { rewrite <-Hafter. f_equal. by rewrite <-!(assoc_L (++)). }
  assert (no_heading_inside (r ++ c :: sec') = true
          ∧ dash_items (w ++ c :: sec') = dash_items (r ++ c :: sec')) as [Hr Hitems].
  { destruct (last_line_break _ _ _ _ Hsplit Hnl) as [->|[b1 ->]]; [done|].
    rewrite <-(assoc_L (++) b1), <-app_comm_cons in Hsec |- *.
    split.
    - apply no_heading_inside_app in Hsec. cbn [no_heading_inside] in Hsec.
      by apply andb_true_iff in Hsec as [_ Hsec].
    - apply dash_items_blank_lines.
      rewrite blank_app in Hw. by apply andb_true_iff in Hw as [Hw _]. }
  rewrite Hitems. unfold dash_items.
  replace (r ++ c :: sec' ++ tail) with ((r ++ c :: sec') ++ tail)
    by (by rewrite <-(assoc_L (++))).
  by rewrite (section_text_app _ _ Hr Htail).
Qed.

(** The heading is found whatever the case of its label, with any white
    space after [##] and at the end of its line: the items are those of
    the section that follows the line. *)
Theorem heading_in_any_case pre ws lab ws2 sec tail :
  ws ≠ [] → blank ws = true →
  length lab = length (str "Ingrédients") →
  ci_prefix (str "Ingrédients") lab = true →
  blank ws2 = true →
  label_free (length pre)
    (pre ++ (str "##" ++ ws ++ lab) ++ ws2 ++ NL :: sec ++ tail) = true →
  blank sec = false →
  no_heading_inside sec = true →
  tail = [] ∨ heading_follows tail = true →
  extract_ingredients (pre ++ (str "##" ++ ws ++ lab) ++ ws2 ++ NL :: sec ++ tail)
  = dash_items sec.
Proof.
  intros Hne Hws Hlen Hlab Hws2 Hpre Hsec Hin Htail.
  destruct (after_heading_section ws2 sec tail Hws2 Hsec Hin Htail) as (r & Hr & Hitems).
  rewrite (extract_ingredients_any_heading pre ws lab _ r Hne Hws Hlen Hlab Hpre Hr).
  exact Hitems.
Qed.

Lemma after_heading_blank_then w c rest :
  blank w = true → isspace c = false →
  after_heading (w ++ NL :: c :: rest) = Some (c :: rest).
Proof.
  intros Hw Hc. induction w as [|y w IH].
  - cbn [app after_heading]. change (isspace NL) with true. cbn match.
    rewrite Hc. by rewrite N.eqb_refl.
  - cbn [blank forallb] in Hw. apply andb_true_iff in Hw as [Hy Hw].
    cbn [app after_heading]. by rewrite Hy, (IH Hw).
Qed.

(** A section of ingredients that is blank and followed by another
    heading takes the items of that heading's section. *)
Theorem blank_section_takes_the_next pre w next tail :
  label_free (length pre)
    (pre ++ str "## Ingrédients" ++ NL :: w ++ NL :: HASH :: HASH :: next ++ tail)
  = true →
  blank w = true →
  no_heading_inside (HASH :: HASH :: next) = true →
  tail = [] ∨ heading_follows tail = true →
  extract_ingredients
    (pre ++ str "## Ingrédients" ++ NL :: w ++ NL :: HASH :: HASH :: next ++ tail)
  = dash_items (HASH :: HASH :: next).
Proof.
  fold HEADING. intros Hpre Hw Hnext Htail.
  assert (after_heading (NL :: w ++ NL :: HASH :: HASH :: next ++ tail)
          = Some (HASH :: HASH :: next ++ tail)) as Hafter.
  { apply (after_heading_blank_then (NL :: w)); [|done].
    change (blank (NL :: w)) with (isspace NL && blank w). by rewrite Hw. }
  rewrite (extract_ingredients_heading pre _ _ Hpre Hafter).
  unfold dash_items.
  change (HASH :: HASH :: next ++ tail) with ((HASH :: HASH :: next) ++ tail).
  by rewrite (section_text_app (HASH :: HASH :: next) tail Hnext Htail).
Qed.

Lemma after_heading_suffix s r : after_heading s = Some r → r `suffix_of` s.
Proof.
  revert r. induction s as [|c s IH]; intros r; [done|]. cbn [after_heading].
  destruct (isspace c); [|done].
  destruct (after_heading s) as [r'|].
  - intros [= <-]. by apply suffix_cons_r, IH.
  - destruct (c =? NL); [|done]. intros [= <-]. by apply suffix_cons_r.
Qed.

Lemma section_text_prefix s : section_text s `prefix_of` s.
Proof.
  induction s as [|c s IH]; [done|]. cbn [section_text].
  destruct (section_end (c :: s)); [apply prefix_nil|by apply prefix_cons].
Qed.

(** A section of ingredients that is blank and ends the document gives no
    ingredient. *)
Theorem blank_last_section_is_empty pre w :
  label_free (length pre) (pre ++ str "## Ingrédients" ++ NL :: w) = true →
  blank w = true →
  extract_ingredients (pre ++ str "## Ingrédients" ++ NL :: w) = [].
Proof.
  fold HEADING. intros Hpre Hw.
  assert (blank (NL :: w) = true) as Hw'.
  { change (blank (NL :: w)) with (isspace NL && blank w). by rewrite Hw. }
  destruct (after_heading (NL :: w)) as [r|] eqn:Hafter.
  2:{ cbn [after_heading] in Hafter. change (isspace NL) with true in Hafter.
      cbn match in Hafter. by destruct (after_heading w). }
  rewrite (extract_ingredients_heading pre _ _ Hpre Hafter).
  apply foldl_ingredient_line_blank, blank_split.
  apply after_heading_suffix in Hafter as [a Ha].
  rewrite Ha, blank_app in Hw'. apply andb_true_iff in Hw' as [_ Hr].
  destruct (section_text_prefix r) as [b Hb].
  set (t := section_text r) in *. rewrite Hb, blank_app in Hr.
  by apply andb_true_iff in Hr as [? _].
Qed.

(** ** More on the header pattern *)

(** The matcher fails when the rest of the pattern fails everywhere in
    the text that is left. *)
Lemma star_greedy_fail p s pos g k :
  (∀ st', Re.m_rest st' `suffix_of` s → k st' = None) →
  Re.star_greedy p (Re.MState pos s g) s k = None.
Proof.
  intros Hk. revert pos. induction s as [|c s IH]; intros pos; cbn [Re.star_greedy].
  - by apply Hk.
  - rewrite (Hk (Re.MState pos (c :: s) g)) by done.
    unfold Re.advance. cbn [Re.m_pos Re.m_group]. rewrite IH.
    + by destruct (p c).
    + intros st' Hst'. apply Hk. by apply suffix_cons_r.
Qed.

Lemma star_lazy_fail p s pos g k :
  (∀ st', Re.m_rest st' `suffix_of` s → k st' = None) →
  Re.star_lazy p (Re.MState pos s g) s k = None.
Proof.
  intros Hk. revert pos. induction s as [|c s IH]; intros pos; cbn [Re.star_lazy].
  - by rewrite Hk.
  - rewrite (Hk (Re.MState pos (c :: s) g)) by done.
    unfold Re.advance. cbn [Re.m_pos Re.m_group]. rewrite IH.
    + by destruct (p c).
    + intros st' Hst'. apply Hk. by apply suffix_cons_r.
Qed.

Lemma exec_fail r st k :
  (∀ st', Re.m_rest st' `suffix_of` Re.m_rest st → k st' = None) →
  Re.exec r st k = None.
Proof.
  revert st k.
  induction r as [|c|p| | |r1 IH1 r2 IH2|r1 IH1 r2 IH2|p|p|r IH|r IH];
    intros [pos s g] k Hk; cbn [Re.exec Re.m_rest] in *.
  - by apply Hk.
  - destruct s as [|x s]; [done|]. destruct (x =? c); [|done].
    apply Hk. by apply suffix_cons_r.
  - destruct s as [|x s]; [done|]. destruct (p x); [|done].
    apply Hk. by apply suffix_cons_r.
  - destruct (decide _); [|done]. by apply Hk.
  - destruct s; [|done]. by apply Hk.
  - apply IH1. intros st' Hst'. apply IH2. intros st'' Hst''. apply Hk.
    by etrans.
  - rewrite IH1 by done. by apply IH2.
  - by apply star_greedy_fail.
  - by apply star_lazy_fail.
  - apply IH. intros st' Hst'. by apply Hk.
  - destruct (Re.exec r _ Some); [|done]. by apply Hk.
Qed.

Lemma line_ends_fail t pos g k :
  line_ends t = false →
  Re.star_greedy isspace (Re.MState pos t g) t
    (λ st', Re.exec (Re.seq [Re.Lit NL]) st' k) = None.
Proof.
  revert pos. induction t as [|c t IH]; intros pos; [done|].
  cbn [line_ends]. intros [Hc Ht]%orb_false_iff.
  cbn [Re.star_greedy]. unfold Re.advance. cbn [Re.m_pos Re.m_group].
  assert (Re.exec (Re.seq [Re.Lit NL]) (Re.MState pos (c :: t) g) k = None) as ->.
  { cbn. by rewrite Hc. }
  destruct (isspace c); [|done]. cbn [andb] in Ht. by rewrite IH.
Qed.

Lemma exec_closing_fail s pos g k :
  closing_at s = false →
  Re.exec (Re.seq closing_res) (Re.MState pos s g) k = None.
Proof.
  unfold closing_at, closing_res. norm_str. intros Hs.
  cbn [Re.seq foldr Re.lits fmap list_fmap Re.exec Re.m_rest].
  destruct s as [|c1 s]; [done|]. destruct (c1 =? NL) eqn:H1; [|done].
  unfold Re.advance at 1. cbn [Re.m_rest].
  destruct s as [|c2 s]; [done|]. destruct (c2 =? 45) eqn:H2; [|done].
  unfold Re.advance at 1. cbn [Re.m_rest].
  destruct s as [|c3 s]; [done|]. destruct (c3 =? 45) eqn:H3; [|done].
  unfold Re.advance at 1. cbn [Re.m_rest].
  destruct s as [|c4 s]; [done|]. destruct (c4 =? 45) eqn:H4; [|done].
  cbn [marker_follows drop] in Hs. unfold DASH in Hs.
  rewrite H1, H2, H3, H4 in Hs. cbn [andb] in Hs.
  unfold Re.advance. cbn [Re.m_rest Re.m_pos Re.m_group].
  exact (line_ends_fail s _ _ _ Hs).
Qed.

Lemma no_closing_suffix s t :
  no_closing s = true → t `suffix_of` s → closing_at t = false.
Proof.
  intros Hs [a ->]. induction a as [|x a IH].
  - destruct t; [done|]. cbn [app no_closing] in Hs.
    by apply andb_true_iff in Hs as [?%negb_true_iff _].
  - cbn [app no_closing] in Hs. apply andb_true_iff in Hs as [_ Hs]. by apply IH.
Qed.

Lemma frontmatter_re_closing :
  frontmatter_re
  = Re.seq ((opening_res
             ++ [Re.Star isspace; Re.Lit NL; Re.Group (Re.StarLazy Re.any)])
            ++ closing_res).
Proof. reflexivity. Qed.

(** A document in which no line [---] closes a header has no front
    matter: neither one without any such line after the first, nor one
    whose marker is not followed by a line break. *)
Theorem unclosed_header_is_no_frontmatter content :
  no_closing content = true →
  parse_yaml_frontmatter content = Return None.
Proof.
  intros Hcontent. unfold parse_yaml_frontmatter, Re.re_match.
  rewrite frontmatter_re_closing, exec_seq_app, exec_fail; [done|].
  intros [pos s g] Hs. cbn [Re.m_rest] in Hs.
  apply exec_closing_fail. by eapply no_closing_suffix.
Qed.

(** The header has to begin at the first character of the document. *)
Theorem header_must_start_the_document content :
  take 3 content ≠ str "---" →
  parse_yaml_frontmatter content = Return None.
Proof.
  intros Hstart. unfold parse_yaml_frontmatter, Re.re_match, frontmatter_re.
  norm_str. cbn [Re.seq foldr Re.lits fmap list_fmap Re.exec Re.m_rest Re.m_pos].
  destruct (decide (0 = 0)%nat); [|done].
  destruct content as [|c1 s]; [done|]. destruct (c1 =? 45) eqn:H1; [|done].
  unfold Re.advance at 1. cbn [Re.m_rest].
  destruct s as [|c2 s]; [done|]. destruct (c2 =? 45) eqn:H2; [|done].
  unfold Re.advance at 1. cbn [Re.m_rest].
  destruct s as [|c3 s]; [done|]. destruct (c3 =? 45) eqn:H3; [|done].
  exfalso. apply Hstart. apply N.eqb_eq in H1, H2, H3. by subst.
Qed.

Lemma star_lazy_skip u t pos g k :
  (∀ i, (i < length u)%nat → k (Re.MState (pos + i) (drop i u ++ t) g) = None) →
  Re.star_lazy Re.any (Re.MState pos (u ++ t) g) (u ++ t) k
  = Re.star_lazy Re.any (Re.MState (pos + length u) t g) t k.
Proof.
  revert pos. induction u as [|c u IH]; intros pos Hk.
  - cbn [app length]. by rewrite Nat.add_0_r.
  - cbn [app Re.star_lazy].
    pose proof (Hk 0%nat ltac:(cbn [length]; lia)) as H0.
    rewrite Nat.add_0_r in H0. cbn [drop app] in H0. rewrite H0.
    unfold Re.advance. cbn [Re.any Re.m_pos Re.m_group]. rewrite IH.
    + cbn [length]. by rewrite Nat.add_succ_r.
    + intros i Hi. specialize (Hk (S i) ltac:(cbn [length]; lia)).
      rewrite Nat.add_succ_r in Hk. exact Hk.
Qed.

Lemma star_lazy_here p s pos g k m :
  k (Re.MState pos s g) = Some m →
  Re.star_lazy p (Re.MState pos s g) s k = Some m.
Proof. intros Hk. destruct s; cbn [Re.star_lazy]; by rewrite Hk. Qed.

Lemma marker_follows_inside u t i :
  no_marker_inside u = true → (i < length u)%nat →
  marker_follows (drop i u ++ NL :: t) = false.
Proof.
  revert i. induction u as [|x u IH]; intros i Hu Hi; [cbn in Hi; lia|].
  cbn [no_marker_inside] in Hu. apply andb_true_iff in Hu as [Hx%negb_true_iff Hu].
  destruct i as [|i]; [|cbn [drop]; apply IH; [done|cbn [length] in Hi; lia]].
  cbn [drop app]. destruct u as [|a [|b [|c u]]]; cbn [app marker_follows] in Hx |- *.
  - destruct t as [|t1 [|t2 t]]; [done..|].
    change (NL =? DASH) with false. by rewrite andb_false_r.
  - destruct t as [|t1 t]; [done|].
    change (NL =? DASH) with false. by rewrite andb_false_r.
  - change (NL =? DASH) with false. by rewrite andb_false_r.
  - done.
Qed.

Lemma exec_opening t k :
  Re.exec (Re.seq opening_res) (Re.MState 0 (str "---" ++ t) None) k
  = k (Re.MState 3 t None).
Proof. reflexivity. Qed.

Lemma exec_closing_ok pos body g :
  ∃ m, Re.exec (Re.seq closing_res) (Re.MState pos (NL :: str "---" ++ NL :: body) g) Some
       = Some m ∧ Re.m_group m = g.
Proof.
  destruct (exec_trailing_newline (4 + pos) body g) as (m & Hm & Hg).
  exists m. split; [|done]. rewrite <-Hm.
  change closing_res
    with ([Re.Lit NL; Re.lits (str "---")] ++ [Re.Star isspace; Re.Lit NL]).
  rewrite exec_seq_app. reflexivity.
Qed.

(** The text between the two marker lines is what the loop over the lines
    runs on. *)
Lemma frontmatter_group c yaml body :
  isspace c = false →
  no_marker_inside (c :: yaml) = true →
  ∃ m, Re.re_match frontmatter_re
         (str "---" ++ NL :: (c :: yaml) ++ NL :: str "---" ++ NL :: body) = Some m
       ∧ Re.group1 m = c :: yaml.
Proof.
  intros Hc Hyaml. unfold Re.re_match.
  rewrite frontmatter_re_closing, <-(assoc_L (++)), !exec_seq_app, exec_opening.
  set (rest := NL :: str "---" ++ NL :: body).
  set (k := λ st' : Re.mstate, Re.exec (Re.seq closing_res) st' Some).
  cbn [Re.seq foldr Re.exec Re.m_rest Re.star_greedy app].
  change (isspace NL) with true. cbn match. rewrite Hc.
  unfold Re.advance. cbn [Re.m_rest Re.m_pos Re.m_group].
  assert ((c =? NL) = false) as Hnl.
  { destruct (c =? NL) eqn:Hnl; [|done]. apply isspace_NL in Hnl. congruence. }
  rewrite Hnl, N.eqb_refl.
  change (c :: yaml ++ rest) with ((c :: yaml) ++ rest).
  set (k' := λ st' : Re.mstate,
         Re.exec (foldr Re.Seq Re.Eps closing_res)
           (Re.MState (Re.m_pos st') (Re.m_rest st')
              (Some (take (Re.m_pos st' - 4) ((c :: yaml) ++ rest)))) Some).
  rewrite (star_lazy_skip (c :: yaml) rest 4 None k').
  - destruct (exec_closing_ok (4 + length (c :: yaml)) body
                (Some (take (4 + length (c :: yaml) - 4) ((c :: yaml) ++ rest))))
      as (m & Hm & Hg).
    exists m. split.
    + apply star_lazy_here. unfold k'. cbn [Re.m_pos Re.m_rest Re.exec]. exact Hm.
    + unfold Re.group1. rewrite Hg. cbn [default].
      replace (4 + length (c :: yaml) - 4)%nat with (length (c :: yaml)) by lia.
      by rewrite take_app_length.
  - intros i Hi. unfold k'. cbn [Re.m_pos Re.m_rest Re.exec].
    apply exec_closing_fail. unfold closing_at, rest.
    by rewrite (marker_follows_inside (c :: yaml) _ i Hyaml Hi).
Qed.

(** A header between two lines [---], beginning with a character that is
    no white space and holding no other line that begins with [---]:
    the metadata are what the loop over its lines leaves, and they do not
    depend on the body. *)
Theorem frontmatter_block c yaml body :
  isspace c = false →
  no_marker_inside (c :: yaml) = true →
  parse_yaml_frontmatter
    (str "---" ++ NL :: (c :: yaml) ++ NL :: str "---" ++ NL :: body)
  = (st ←! for_each yaml_line yaml_start (split NL (c :: yaml));
     Return (Some (metadata st))).
Proof.
  intros Hc Hyaml.
  destruct (frontmatter_group c yaml body Hc Hyaml) as (m & Hm & Hg).
  unfold parse_yaml_frontmatter. by rewrite Hm, Hg.
Qed.

(** ** The lines of the header *)

Lemma rstrip_chars_after p a c v :
  p c = false → rstrip_chars p (a ++ c :: v) = a ++ c :: rstrip_chars p v.
Proof.
  intros Hc. destruct (rstrip_chars_split p v) as (w & Hv & Hw).
  rewrite Hv at 1.
  replace (a ++ c :: rstrip_chars p v ++ w)
    with ((a ++ c :: rstrip_chars p v) ++ w) by (by rewrite <-(assoc_L (++))).
  rewrite rstrip_chars_blank by done.
  destruct (rstrip_chars p v) as [|x r _] eqn:Hr using rev_ind.
  - by apply (rstrip_chars_last p a c).
  - apply rstrip_chars_stop in Hr.
    replace (a ++ c :: r ++ [x]) with ((a ++ c :: r) ++ [x])
      by (by rewrite <-(assoc_L (++))).
    by apply rstrip_chars_last.
Qed.

Lemma strip_rstrip p v : strip_chars p (rstrip_chars p v) = strip_chars p v.
Proof.
  destruct (rstrip_chars_split p v) as (w & Hv & Hw).
  pose proof (strip_chars_pad p [] (rstrip_chars p v) w eq_refl Hw) as H.
  cbn [app] in H. rewrite <-Hv in H. by rewrite H.
Qed.

Lemma startswith_strip p c s :
  startswith c (strip_chars p s) = startswith c (drop_while p s).
Proof.
  unfold strip_chars, lstrip_chars.
  destruct (drop_while p s) as [|x r] eqn:Hs; [done|].
  apply drop_while_stop in Hs.
  pose proof (rstrip_chars_after p [] x r Hs) as H. cbn [app] in H. by rewrite H.
Qed.

Lemma blank_not_elem w c : blank w = true → isspace c = false → c ∉ w.
Proof.
  intros Hw Hc Hin. unfold blank in Hw. rewrite forallb_forall in Hw.
  apply list_elem_of_In in Hin. rewrite (Hw _ Hin) in Hc. done.
Qed.

Lemma split1_first sep a b : sep ∉ a → split1 sep (a ++ sep :: b) = (a, b).
Proof.
  induction a as [|x a IH]; intros Ha; cbn [app split1].
  - by rewrite N.eqb_refl.
  - apply not_elem_of_cons in Ha as [Hx Ha].
    apply not_eq_sym, N.eqb_neq in Hx. rewrite Hx, (IH Ha). done.
Qed.

Lemma contains_middle c a b : contains c (a ++ c :: b) = true.
Proof.
  unfold contains. rewrite existsb_app. cbn [existsb].
  by rewrite N.eqb_refl, orb_true_r.
Qed.

(** A line [key : value], the key possibly indented: what the loop does
    with it. *)
Lemma yaml_line_key_value st indent key sp1 v :
  blank indent = true → blank sp1 = true → plain_key key →
  yaml_line st (indent ++ key ++ sp1 ++ COLON :: v)
  = let value := strip_set QUOTES (strip v) in
    if startswith LBRACKET value then
      Return (YamlState
                (<[key := VList (clean_item
                                   <$> split COMMA (strip_set [LBRACKET; RBRACKET] value))]>
                   (metadata st))
                (current_key st) (list_mode st))
    else if negb (is_empty value) then
      Return (YamlState (<[key := VStr value]> (metadata st))
                (current_key st) (list_mode st))
    else Return (YamlState (<[key := VList []]> (metadata st)) (Some key) true).
Proof.
  intros Hindent Hsp1 Hkey. unfold yaml_line.
  assert (rstrip (indent ++ key ++ sp1 ++ COLON :: v)
          = (indent ++ key ++ sp1) ++ COLON :: rstrip v) as ->.
  { unfold rstrip. rewrite <-(rstrip_chars_after isspace _ COLON v) by done.
    by rewrite <-!(assoc_L (++)). }
  rewrite contains_middle.
  assert (startswith DASH (strip ((indent ++ key ++ sp1) ++ COLON :: rstrip v))
          = false) as ->.
  { destruct Hkey as (Hcolon & Hstrip & Hdash). unfold strip.
    rewrite startswith_strip, <-!(assoc_L (++)), drop_while_blank by done.
    destruct key as [|k0 key].
    - cbn [app]. rewrite drop_while_blank by done. by rewrite drop_while_head.
    - apply strip_chars_fix in Hstrip as [Hl _]. apply drop_while_stop in Hl.
      cbn [app]. by rewrite drop_while_head. }
  cbn [andb negb].
  rewrite split1_first.
  2:{ destruct Hkey as (Hcolon & _). rewrite !elem_of_app.
      intros [Hin|[Hin|Hin]]; [|done|].
      - exact (blank_not_elem _ COLON Hindent eq_refl Hin).
      - exact (blank_not_elem _ COLON Hsp1 eq_refl Hin). }
  assert (strip (indent ++ key ++ sp1) = key) as ->.
  { destruct Hkey as (_ & Hstrip & _). unfold strip.
    by rewrite strip_chars_pad. }
  assert (strip (rstrip v) = strip v) as -> by apply strip_rstrip. done.
Qed.

(** A line that begins with a dash, possibly indented: what the loop does
    with it. *)
Lemma yaml_line_dash st indent v :
  blank indent = true →
  yaml_line st (indent ++ DASH :: v)
  = if list_mode st then
      match current_key st with
      | Some key =>
          if is_empty key then Return st
          else match metadata st !! key with
               | Some (VList l) =>
                   Return (YamlState
                             (<[key := VList (l ++ [clean_item v])]> (metadata st))
                             (current_key st) (list_mode st))
               | Some (VStr _) => Raise AttributeError
               | None => Raise KeyError
               end
      | None => Return st
      end
    else Return st.
Proof.
  intros Hindent. unfold yaml_line.
  assert (rstrip (indent ++ DASH :: v) = indent ++ DASH :: rstrip v) as ->
      by (by apply rstrip_chars_after).
  assert (strip (indent ++ DASH :: rstrip v) = DASH :: rstrip v) as ->.
  { unfold strip, strip_chars, lstrip_chars.
    rewrite drop_while_blank, drop_while_head by done.
    pose proof (rstrip_chars_after isspace [] DASH (rstrip v) eq_refl) as H.
    cbn [app] in H. rewrite H. f_equal. apply rstrip_chars_idem. }
  cbn [startswith]. change (DASH =? DASH) with true. cbn [negb andb tail].
  rewrite andb_false_r. unfold clean_item.
  assert (strip (rstrip v) = strip v) as -> by apply strip_rstrip. done.
Qed.

Lemma strip_set_quoted q1 x q2 :
  forallb (one_of QUOTES) q1 = true → forallb (one_of QUOTES) q2 = true →
  strip_set QUOTES x = x →
  strip_set QUOTES (q1 ++ x ++ q2) = x.
Proof.
  intros H1 H2 Hx. unfold strip_set in *. by rewrite strip_chars_pad.
Qed.

(** A scalar declaration, whatever its indentation, the white space
    around the colon and at the end of the line, and the quotes around
    the value: the key is mapped to the value. *)
Theorem yaml_scalar_line st indent key sp1 sp2 q1 value q2 trail :
  blank indent = true → blank sp1 = true → blank sp2 = true → blank trail = true →
  plain_key key →
  forallb (one_of QUOTES) q1 = true → forallb (one_of QUOTES) q2 = true →
  strip (q1 ++ value ++ q2) = q1 ++ value ++ q2 →
  strip_set QUOTES value = value →
  value ≠ [] →
  startswith LBRACKET value = false →
  yaml_line st (indent ++ key ++ sp1 ++ COLON :: sp2 ++ (q1 ++ value ++ q2) ++ trail)
  = Return (YamlState (<[key := VStr value]> (metadata st))
              (current_key st) (list_mode st)).
Proof.
  intros Hindent Hsp1 Hsp2 Htrail Hkey Hq1 Hq2 Hstrip Hvalue Hne Hbracket.
  rewrite yaml_line_key_value by done. cbn zeta.
  unfold strip. rewrite strip_chars_pad by done. fold (strip (q1 ++ value ++ q2)).
  rewrite Hstrip, strip_set_quoted by done.
  rewrite Hbracket. by destruct value.
Qed.

(** A key whose value is empty, or made of quotes only, begins a block
    list: the key is mapped to the empty list and becomes the current
    list key. *)
Theorem yaml_list_key_line st indent key sp1 sp2 q trail :
  blank indent = true → blank sp1 = true → blank sp2 = true → blank trail = true →
  plain_key key →
  forallb (one_of QUOTES) q = true →
  yaml_line st (indent ++ key ++ sp1 ++ COLON :: sp2 ++ q ++ trail)
  = Return (YamlState (<[key := VList []]> (metadata st)) (Some key) true).
Proof.
  intros Hindent Hsp1 Hsp2 Htrail Hkey Hq.
  rewrite yaml_line_key_value by done. cbn zeta.
  assert (strip_set QUOTES (strip (sp2 ++ q ++ trail)) = []) as ->; [|done].
  unfold strip. rewrite strip_chars_pad by done.
  unfold strip_set, strip_chars, lstrip_chars.
  destruct (rstrip_chars_split isspace (drop_while isspace q)) as (w1 & H1 & _).
  destruct (drop_while_split isspace q) as (w2 & H2 & _).
  assert (forallb (one_of QUOTES) (rstrip_chars isspace (drop_while isspace q)) = true)
    as Hall.
  { rewrite H2, H1, !forallb_app in Hq.
    by apply andb_true_iff in Hq as [_ [? _]%andb_true_iff]. }
  by rewrite (drop_while_nil _ _ Hall).
Qed.

(** ** Lists in the header *)

Lemma split_none sep x : sep ∉ x → split sep x = [x].
Proof.
  induction x as [|c x IH]; [done|]. intros [Hc Hx]%not_elem_of_cons.
  cbn [split]. apply not_eq_sym, N.eqb_neq in Hc. by rewrite Hc, (IH Hx).
Qed.

Lemma clean_item_space x : clean_item (32 :: x) = clean_item x.
Proof.
  unfold clean_item, strip.
  pose proof (strip_chars_pad isspace [32] x [] eq_refl eq_refl) as H.
  rewrite app_nil_r in H. cbn [app] in H. by rewrite H.
Qed.

Lemma clean_item_plain x : plain_text x → clean_item x = x.
Proof. intros [Hs Hq]. unfold clean_item. by rewrite Hs, Hq. Qed.

(** Splitting a list written with [", "] and cleaning the pieces gives the
    cleaned items. *)
Lemma clean_split_join items :
  items ≠ [] → Forall (λ x, COMMA ∉ x) items →
  clean_item <$> split COMMA (join (str ", ") items) = clean_item <$> items.
Proof.
  intros Hne Hitems. induction Hitems as [|x items Hx Hitems IH]; [done|].
  destruct items as [|y items].
  - cbn [join]. by rewrite split_none.
  - specialize (IH ltac:(done)). cbn [join] in IH |- *.
    change (str ", ") with [COMMA; 32] in IH |- *.
    set (J := match items with [] => y | _ :: _ => y ++ [COMMA; 32] ++ join [COMMA; 32] items end) in *.
    change (x ++ [COMMA; 32] ++ J) with (x ++ COMMA :: 32 :: J).
    rewrite split_app_sep, split_none by done.
    change (clean_item <$> [x] ++ split COMMA (32 :: J))
      with (clean_item x :: (clean_item <$> split COMMA (32 :: J))).
    change (clean_item <$> x :: y :: items)
      with (clean_item x :: (clean_item <$> y :: items)).
    f_equal. etrans; [|exact IH].
    cbn [split]. change (32 =? COMMA) with false. cbn match.
    pose proof (split_nonempty COMMA J).
    destruct (split COMMA J) as [|l0 ls]; [done|].
    cbn [fmap list_fmap]. by rewrite clean_item_space.
Qed.

Lemma strip_chars_ends p c1 mid c2 :
  p c1 = false → p c2 = false →
  strip_chars p (c1 :: mid ++ [c2]) = c1 :: mid ++ [c2].
Proof.
  intros H1 H2. unfold strip_chars, lstrip_chars. rewrite drop_while_head by done.
  by apply (rstrip_chars_last p (c1 :: mid) c2).
Qed.

(** An inline list of plain items written [[a, b, c]]: the key is mapped
    to the list of the items. *)
Theorem yaml_inline_list_line st indent key sp1 sp2 items trail :
  blank indent = true → blank sp1 = true → blank sp2 = true → blank trail = true →
  plain_key key →
  items ≠ [] →
  Forall (λ x, (COMMA ∉ x) ∧ plain_text x) items →
  strip_set [LBRACKET; RBRACKET] (join (str ", ") items) = join (str ", ") items →
  yaml_line st
    (indent ++ key ++ sp1 ++ COLON
       :: sp2 ++ (LBRACKET :: join (str ", ") items ++ [RBRACKET]) ++ trail)
  = Return (YamlState (<[key := VList items]> (metadata st))
              (current_key st) (list_mode st)).
Proof.
  intros Hindent Hsp1 Hsp2 Htrail Hkey Hne Hitems Hbrackets.
  rewrite yaml_line_key_value by done. cbn zeta.
  set (J := join (str ", ") items) in *.
  assert (strip_set QUOTES (strip (sp2 ++ (LBRACKET :: J ++ [RBRACKET]) ++ trail))
          = LBRACKET :: J ++ [RBRACKET]) as ->.
  { unfold strip. rewrite strip_chars_pad by done.
    rewrite strip_chars_ends by done. by apply strip_chars_ends. }
  cbn [startswith]. change (LBRACKET =? LBRACKET) with true. cbn match.
  assert (strip_set [LBRACKET; RBRACKET] (LBRACKET :: J ++ [RBRACKET]) = J) as ->.
  { unfold strip_set in *.
    pose proof (strip_chars_pad (one_of [LBRACKET; RBRACKET]) [LBRACKET] J [RBRACKET]
                  eq_refl eq_refl) as H.
    cbn [app] in H. by rewrite H. }
  unfold J. rewrite clean_split_join; [|done|].
  - assert (clean_item <$> items = items) as ->; [|done].
    clear -Hitems. induction Hitems as [|x items [_ Hx] _ IH]; [done|].
    change (clean_item <$> x :: items) with (clean_item x :: (clean_item <$> items)).
    by rewrite (clean_item_plain x Hx), IH.
  - eapply Forall_impl; [exact Hitems|]. by intros x [? _].
Qed.

Lemma yaml_item_lines key items l md :
  key ≠ [] →
  Forall plain_text items →
  md !! key = Some (VList l) →
  for_each yaml_line (YamlState md (Some key) true)
    ((λ item, str "  - " ++ item) <$> items)
  = Return (YamlState (<[key := VList (l ++ items)]> md) (Some key) true).
Proof.
  intros Hkey Hitems. revert l md.
  induction Hitems as [|x items Hx _ IH]; intros l md Hmd.
  - cbn [fmap list_fmap for_each]. by rewrite app_nil_r, insert_id.
  - cbn [fmap list_fmap for_each].
    change (str "  - " ++ x) with ([32; 32] ++ DASH :: 32 :: x).
    rewrite yaml_line_dash by done. cbn [list_mode current_key metadata].
    destruct key as [|k0 key]; [done|]. cbn [is_empty]. rewrite Hmd.
    rewrite clean_item_space, (clean_item_plain x Hx). cbn [bind].
    rewrite (IH (l ++ [x])) by apply lookup_insert_eq.
    by rewrite insert_insert_eq, <-(assoc_L (++)).
Qed.

Lemma plain_key_line st key :
  plain_key key →
  yaml_line st (key ++ str ":")
  = Return (YamlState (<[key := VList []]> (metadata st)) (Some key) true).
Proof.
  intros Hkey.
  pose proof (yaml_line_key_value st [] key [] [] eq_refl eq_refl Hkey) as H.
  cbn [app] in H. exact H.
Qed.

(** A block list: the line [key:] followed by one line [  - item] for each
    item maps the key to the list of the items, in their order, whatever
    the state of the loop before. *)
Theorem yaml_block_list st key items :
  plain_key key → key ≠ [] →
  Forall plain_text items →
  for_each yaml_line st
    ((key ++ str ":") :: ((λ item, str "  - " ++ item) <$> items))
  = Return (YamlState (<[key := VList items]> (metadata st)) (Some key) true).
Proof.
  intros Hkey Hne Hitems. cbn [for_each].
  rewrite (plain_key_line st key Hkey). cbn [bind].
  rewrite (yaml_item_lines key items [] _ Hne Hitems) by apply lookup_insert_eq.
  by rewrite insert_insert_eq.
Qed.

Lemma for_each_raise {A S} (body : S → A → result S) st l more e s1 :
  for_each body st l = Return s1 →
  (∃ line rest, more = line :: rest ∧ body s1 line = Raise e) →
  for_each body st (l ++ more) = Raise e.
Proof.
  revert st. induction l as [|a l IH]; intros st Hl (line & rest & -> & Hraise).
  - cbn in Hl. simplify_eq. cbn [app for_each]. by rewrite Hraise.
  - cbn [app for_each] in Hl |- *. destruct (body st a) as [s'|e']; [|done].
    cbn [bind] in Hl |- *. apply IH; [done|]. by exists line, rest.
Qed.

(** A list key declared again as a scalar, then followed by a dash line:
    the loop raises, whatever comes after. *)
Theorem redeclared_list_key_raises st key value v more :
  plain_key key → key ≠ [] →
  plain_text value → value ≠ [] → startswith LBRACKET value = false →
  for_each yaml_line st
    ([key ++ str ":"; key ++ str ": " ++ value; DASH :: v] ++ more)
  = Raise AttributeError.
Proof.
  intros Hkey Hne Hvalue Hvne Hbracket.
  change ([key ++ str ":"; key ++ str ": " ++ value; DASH :: v] ++ more)
    with ([key ++ str ":"; key ++ str ": " ++ value] ++ (DASH :: v) :: more).
  apply (for_each_raise yaml_line st _ _ _
           (YamlState (<[key := VStr value]> (<[key := VList []]> (metadata st)))
              (Some key) true)).
  - cbn [for_each]. rewrite (plain_key_line st key Hkey). cbn [bind].
    pose proof (yaml_line_key_value
                  (YamlState (<[key := VList []]> (metadata st)) (Some key) true)
                  [] key [] (32 :: value) eq_refl eq_refl Hkey) as H.
    cbn [app] in H. change (key ++ str ": " ++ value) with (key ++ COLON :: 32 :: value).
    rewrite H. cbn zeta. fold (clean_item (32 :: value)).
    rewrite clean_item_space, (clean_item_plain value Hvalue), Hbracket.
    cbn [metadata current_key list_mode].
    destruct value; [done|]. reflexivity.
  - exists (DASH :: v), more. split; [done|].
    pose proof (yaml_line_dash
                  (YamlState (<[key := VStr value]> (<[key := VList []]> (metadata st)))
                     (Some key) true) [] v eq_refl) as H.
    cbn [app] in H. cbn [current_key list_mode metadata] in H. rewrite H.
    destruct key; [done|]. cbn [is_empty]. by rewrite lookup_insert_eq.
Qed.

(** ** What the loop keeps *)

Lemma yaml_invariant_insert md cur mode key x :
  strip key = key →
  (∀ v, x = VStr v → v ≠ [] ∧ strip_set QUOTES v = v) →
  yaml_invariant (YamlState md cur mode) →
  yaml_invariant (YamlState (<[key := x]> md) cur mode).
Proof.
  intros Hkey Hx (Hscalar & Hkeys & Hcur & Hmode).
  cbn [metadata current_key list_mode] in *.
  split; [|split; [|split]]; cbn [metadata current_key list_mode].
  - intros k v Hv. destruct (decide (key = k)) as [<-|Hne].
    + rewrite lookup_insert_eq in Hv. apply Hx. congruence.
    + rewrite lookup_insert_ne in Hv by done. by eapply Hscalar.
  - intros k Hk. destruct (decide (key = k)) as [<-|Hne]; [done|].
    rewrite lookup_insert_ne in Hk by done. by apply Hkeys.
  - intros k Hk. destruct (decide (key = k)) as [<-|Hne].
    + rewrite lookup_insert_eq. by eexists.
    + rewrite lookup_insert_ne by done. by apply Hcur.
  - exact Hmode.
Qed.

Lemma yaml_invariant_list_key md cur mode key :
  strip key = key →
  yaml_invariant (YamlState md cur mode) →
  yaml_invariant (YamlState (<[key := VList []]> md) (Some key) true).
Proof.
  intros Hkey Hinv.
  assert (∀ v, VList [] = VStr v → v ≠ [] ∧ strip_set QUOTES v = v) as Hx
    by (by intros v [=]).
  destruct (yaml_invariant_insert md cur mode key (VList []) Hkey Hx Hinv)
    as (Hscalar & Hkeys & _ & _).
  cbn [metadata current_key list_mode] in *.
  split; [|split; [|split]]; cbn [metadata current_key list_mode].
  - exact Hscalar.
  - exact Hkeys.
  - intros k [= <-]. rewrite lookup_insert_eq. by eexists.
  - split; [by eexists|done].
Qed.

Lemma yaml_line_invariant st line st' :
  yaml_invariant st → yaml_line st line = Return st' → yaml_invariant st'.
Proof.
  intros Hinv. unfold yaml_line.
  destruct (contains COLON (rstrip line)
            && negb (startswith DASH (strip (rstrip line)))).
  - destruct (split1 COLON (rstrip line)) as [k v].
    set (key := strip k). set (value := strip_set QUOTES (strip v)).
    assert (strip key = key) as Hkey by apply strip_chars_idem.
    destruct st as [md cur mode]. cbn [metadata current_key list_mode].
    destruct (startswith LBRACKET value).
    + intros [= <-]. apply yaml_invariant_insert; [done| |done]. by intros ? [=].
    + destruct (is_empty value) eqn:Hvalue; cbn [negb].
      * intros [= <-]. by eapply yaml_invariant_list_key.
      * intros [= <-]. apply yaml_invariant_insert; [done| |done].
        intros ? [= <-]. split; [by destruct value|apply strip_chars_idem].
  - destruct (startswith DASH (strip (rstrip line)) && list_mode st);
      [|by intros [= <-]].
    destruct (current_key st) as [key|] eqn:Hcurrent; [|by intros [= <-]].
    destruct (is_empty key); [by intros [= <-]|].
    destruct (metadata st !! key) as [[s|l]|] eqn:Hlookup; [done| |done].
    intros [= <-]. destruct st as [md cur mode].
    cbn [metadata current_key list_mode] in *. subst cur.
    apply yaml_invariant_insert; [|by intros ? [=]|done].
    destruct Hinv as (_ & Hkeys & _). apply Hkeys.
    cbn [metadata]. by eexists.
Qed.

Lemma yaml_start_invariant : yaml_invariant yaml_start.
Proof.
  unfold yaml_start.
  split; [|split; [|split]]; cbn [metadata current_key list_mode].
  - intros k v Hk. by rewrite lookup_empty in Hk.
  - intros k [? Hk]. by rewrite lookup_empty in Hk.
  - done.
  - split; [done|]. by intros [? ?].
Qed.

Lemma for_each_yaml_invariant lines st st' :
  yaml_invariant st → for_each yaml_line st lines = Return st' → yaml_invariant st'.
Proof.
  revert st. induction lines as [|line lines IH]; intros st Hst; cbn [for_each].
  - by intros [= <-].
  - destruct (yaml_line st line) as [s1|] eqn:Hline; [|done]. cbn [bind].
    apply IH. by eapply yaml_line_invariant.
Qed.

Lemma yaml_line_raises st line e :
  yaml_invariant st → yaml_line st line = Raise e → e = AttributeError.
Proof.
  intros (_ & _ & Hcur & _). unfold yaml_line.
  destruct (contains COLON (rstrip line)
            && negb (startswith DASH (strip (rstrip line)))).
  - destruct (split1 COLON (rstrip line)) as [k v].
    destruct (startswith LBRACKET _); [done|]. by destruct (negb _).
  - destruct (startswith DASH (strip (rstrip line)) && list_mode st); [|done].
    destruct (current_key st) as [key|] eqn:Hkey; [|done].
    destruct (is_empty key); [done|].
    destruct (Hcur key eq_refl) as [x Hx]. rewrite Hx.
    destruct x; [by intros [= <-]|done].
Qed.

Lemma for_each_yaml_raises lines st e :
  yaml_invariant st → for_each yaml_line st lines = Raise e → e = AttributeError.
Proof.
  revert st. induction lines as [|line lines IH]; intros st Hst; cbn [for_each]; [done|].
  destruct (yaml_line st line) as [s1|e1] eqn:Hline; cbn [bind].
  - apply IH. by eapply yaml_line_invariant.
  - intros [= <-]. by eapply yaml_line_raises.
Qed.

Lemma parse_yaml_frontmatter_invariant content md :
  parse_yaml_frontmatter content = Return (Some md) →
  ∃ st, yaml_invariant st ∧ metadata st = md.
Proof.
  unfold parse_yaml_frontmatter.
  destruct (Re.re_match frontmatter_re content) as [m|]; [|done].
  destruct (for_each yaml_line _ _) as [st|] eqn:Hst; [|done].
  cbn [bind]. intros [= <-]. exists st. split; [|done].
  eapply for_each_yaml_invariant; [apply yaml_start_invariant|exact Hst].
Qed.

(** In the metadata of a parsed header, every key is trimmed, and every
    scalar is a non-empty text without quote at its ends. *)
Theorem header_entries_are_trimmed content md :
  parse_yaml_frontmatter content = Return (Some md) →
  (∀ k, is_Some (md !! k) → strip k = k)
  ∧ (∀ k v, md !! k = Some (VStr v) → v ≠ [] ∧ strip_set QUOTES v = v).
Proof.
  intros (st & (Hscalar & Hkeys & _) & <-)%parse_yaml_frontmatter_invariant.
  split; [exact Hkeys|exact Hscalar].
Qed.

(** The only exception the header parser raises is the one of a dash line
    under a list key that was declared again as a scalar: the key of the
    current list is always in the metadata. *)
Theorem header_parser_raises_only_attribute_error content e :
  parse_yaml_frontmatter content = Raise e → e = AttributeError.
Proof.
  unfold parse_yaml_frontmatter.
  destruct (Re.re_match frontmatter_re content) as [m|]; [|done].
  destruct (for_each yaml_line _ _) as [st|e'] eqn:Hst; [done|].
  cbn [bind]. intros [= <-].
  eapply for_each_yaml_raises; [apply yaml_start_invariant|exact Hst].
Qed.

(** The title of a record is never the empty string. *)
Theorem record_title_is_not_empty fs f printed r :
  parse_recipe_file fs f = (printed, Some r) → title r ≠ VStr [].
Proof.
  intros Hf.
  assert (file_recipe fs f = Some r) as Hr by (unfold file_recipe; by rewrite Hf).
  destruct (file_recipe_header _ _ _ Hr) as (content & md & Hread & Hparse & Hne).
  rewrite (parse_recipe_file_metadata _ _ _ _ Hread Hparse Hne) in Hf.
  destruct (category_of md); [|done]. destruct (servings_of md); [|done].
  injection Hf as _ <-. cbn [title].
  apply parse_yaml_frontmatter_invariant in Hparse as (st & (Hscalar & _) & <-).
  destruct (metadata st !! str "title") as [v|] eqn:Htitle; [|done].
  change (default (VStr (str "Sans titre")) (Some v)) with v.
  intros ->. by destruct (Hscalar _ _ Htitle).
Qed.

(** ** The report on each file *)




End Indexer.

(** ** The theorems at work on the example directory *)

(** The claim C4 as stated fails on the code: the items under a deeper
    sub-heading are not collected, and those under a shallower heading
    are. *)
Lemma subheading_items_not_collected :
  extract_ingredients subheading_document = [str "farine"]
  ∧ (str "sucre" ∉ extract_ingredients subheading_document)
  ∧ extract_ingredients shallow_heading_document = [str "farine"; str "sel"].
Proof.
  split; [compute_it|]. split; [decide_it|compute_it].
Qed.

Lemma ingredients_section_ends_at_double_hash_witness :
  let pre := soup_header in
  let sec := str "- farine" in
  let tail := NL :: str "### Garniture" ++ NL :: str "- sucre" in
  label_free (length pre) (pre ++ str "## Ingrédients" ++ NL :: sec ++ tail) = true
  ∧ blank sec = false
  ∧ no_heading_inside sec = true
  ∧ (tail = [] ∨ heading_follows tail = true)
  ∧ extract_ingredients (pre ++ str "## Ingrédients" ++ NL :: sec ++ tail)
    = dash_items sec.
Proof.
  intros pre sec tail.
  assert (label_free (length pre) (pre ++ str "## Ingrédients" ++ NL :: sec ++ tail)
          = true) as H1 by compute_it.
  assert (blank sec = false) as H2 by compute_it.
  assert (no_heading_inside sec = true) as H3 by compute_it.
  assert (tail = [] ∨ heading_follows tail = true) as H4 by (right; compute_it).
  repeat (split; [assumption|]).
  exact (ingredients_section_ends_at_double_hash pre sec tail H1 H2 H3 H4).
Defined.

Lemma soup_document_record_witness :
  let fs := directory [str "soupe.qmd"] in
  let base := str "soupe" in
  let gap := [NL] in
  let rest := @nil N in
  base ≠ []
  ∧ (HASH ∉ gap)
  ∧ (rest = [] ∨ ∃ r, rest = HASH :: HASH :: r)
  ∧ read_text fs (Path RECETTES (base ++ str ".qmd"))
    = Return (soup_header ++ gap ++ soup_section ++ rest)
  ∧ parse_recipe_file ascii_digits fs (Path RECETTES (base ++ str ".qmd"))
    = ([], Some (Recipe base (VStr (str "Soup")) (str "dinner") 2
                   [str "2 carrots"; str "1 onion"])).
Proof.
  intros fs base gap rest.
  assert (base ≠ []) as H1 by (by vm_compute).
  assert (HASH ∉ gap) as H2 by decide_it.
  assert (rest = [] ∨ ∃ r, rest = HASH :: HASH :: r) as H3 by (by left).
  assert (read_text fs (Path RECETTES (base ++ str ".qmd"))
          = Return (soup_header ++ gap ++ soup_section ++ rest)) as H4 by compute_it.
  repeat (split; [assumption|]).
  exact (soup_document_record ascii_digits fs RECETTES base gap rest H1 H2 H3 H4).
Defined.

Lemma non_numeric_servings_excluded_witness :
  let names := [str "flan.qmd"; str "soupe.qmd"] in
  let fs := directory names in
  let f := Path RECETTES (str "flan.qmd") in
  let md : gmap pystr value :=
    <[str "servings" := VStr (str "beaucoup")]>
      (<[str "title" := VStr (str "Flan")]> ∅) in
  listdir fs RECETTES = Some names
  ∧ f ∈ discover RECETTES names
  ∧ read_text fs f = Return bad_servings_document
  ∧ parse_yaml_frontmatter bad_servings_document = Return (Some md)
  ∧ md !! str "servings" = Some (VStr (str "beaucoup"))
  ∧ int_of_str ascii_digits (str "beaucoup") = Raise ValueError
  ∧ ∃ e events recipes,
      parse_recipe_file ascii_digits fs f = ([ERROR_parsing f e], None)
      ∧ generate_recipes_json ascii_digits fs RECETTES OUTPUT
        = events ++ epilogue OUTPUT recipes
      ∧ Print (ERROR_parsing f e) ∈ events
      ∧ ∀ r, r ∈ recipes ↔
             ∃ g, g ∈ discover RECETTES names ∧ g ≠ f
                  ∧ file_recipe ascii_digits fs g = Some r.
Proof.
  intros names fs f md.
  assert (listdir fs RECETTES = Some names) as H1 by compute_it.
  assert (f ∈ discover RECETTES names) as H2 by decide_it.
  assert (read_text fs f = Return bad_servings_document) as H3 by compute_it.
  assert (parse_yaml_frontmatter bad_servings_document = Return (Some md)) as H4
      by compute_it.
  assert (md !! str "servings" = Some (VStr (str "beaucoup"))) as H5 by compute_it.
  assert (int_of_str ascii_digits (str "beaucoup") = Raise ValueError) as H6
      by compute_it.
  repeat (split; [assumption|]).
  exact (non_numeric_servings_excluded ascii_digits fs RECETTES OUTPUT names f
           bad_servings_document md (str "beaucoup") H1 H2 H3 H4 H5 H6).
Defined.

Lemma records_come_from_parsed_headers_witness :
  let names := [str "soupe.qmd"; str "notes.qmd"; str "vide.qmd"] in
  let fs := directory names in
  listdir fs RECETTES = Some names
  ∧ NoDup names
  ∧ ∃ events recipes documents,
      generate_recipes_json ascii_digits fs RECETTES OUTPUT
      = events ++ epilogue OUTPUT recipes
      ∧ documents `sublist_of` sorted (discover RECETTES names)
      ∧ NoDup documents
      ∧ Forall2 (λ f r,
          parse_recipe_file ascii_digits fs f = ([], Some r)
          ∧ (∃ content md,
               read_text fs f = Return content
               ∧ parse_yaml_frontmatter content = Return (Some md) ∧ md ≠ ∅))
          documents recipes
      ∧ ∀ f content,
          f ∈ discover RECETTES names →
          read_text fs f = Return content →
          parse_yaml_frontmatter content = Return None →
          (f ∉ documents) ∧ Print (WARNING_no_frontmatter f) ∈ events.
Proof.
  intros names fs.
  assert (listdir fs RECETTES = Some names) as H1 by compute_it.
  assert (NoDup names) as H2 by decide_it.
  repeat (split; [assumption|]).
  exact (records_come_from_parsed_headers ascii_digits fs RECETTES OUTPUT names H1 H2).
Defined.

Lemma records_in_sorted_name_order_witness :
  let names := [str "b.qmd"; str "a.qmd"; str "_template.qmd"] in
  let fs := directory names in
  listdir fs RECETTES = Some names
  ∧ ∃ events files,
      generate_recipes_json ascii_digits fs RECETTES OUTPUT
      = events ++ epilogue OUTPUT (omap (file_recipe ascii_digits fs) files)
      ∧ StronglySorted path_le files
      ∧ files ≡ₚ discover RECETTES names
      ∧ (∀ f, f ∈ files ↔
              parent f = RECETTES ∧ name f ∈ names
              ∧ glob_qmd (name f) = true ∧ name f ≠ TEMPLATE)
      ∧ (names ≡ₚ [str "b.qmd"; str "a.qmd"; str "_template.qmd"] →
         files = [Path RECETTES (str "a.qmd"); Path RECETTES (str "b.qmd")]
         ∧ ∀ ra rb,
             file_recipe ascii_digits fs (Path RECETTES (str "a.qmd")) = Some ra →
             file_recipe ascii_digits fs (Path RECETTES (str "b.qmd")) = Some rb →
             omap (file_recipe ascii_digits fs) files = [ra; rb]).
Proof.
  intros names fs.
  assert (listdir fs RECETTES = Some names) as H1 by compute_it.
  split; [assumption|].
  exact (records_in_sorted_name_order ascii_digits fs RECETTES OUTPUT names H1).
Defined.

Lemma defaults_for_omitted_keys_witness :
  let fs := directory [str "sel.qmd"] in
  let f := Path RECETTES (str "sel.qmd") in
  let md : gmap pystr value := {[ str "author" := VStr (str "Léon") ]} in
  read_text fs f = Return author_only_document
  ∧ parse_yaml_frontmatter author_only_document = Return (Some md)
  ∧ md !! str "title" = None
  ∧ md !! str "categories" = None
  ∧ md !! str "servings" = None
  ∧ (∀ printed r, parse_recipe_file ascii_digits fs f = (printed, Some r) →
       title r = VStr (str "Sans titre") ∧ category r = str "autre"
       ∧ servings r = 4%Z)
  ∧ (md ≠ ∅ →
     parse_recipe_file ascii_digits fs f =
     ([], Some (Recipe (stem f) (VStr (str "Sans titre")) (str "autre") 4
                  (extract_ingredients author_only_document)))).
Proof.
  intros fs f md.
  assert (read_text fs f = Return author_only_document) as H1 by compute_it.
  assert (parse_yaml_frontmatter author_only_document = Return (Some md)) as H2
      by compute_it.
  assert (md !! str "title" = None) as H3 by compute_it.
  assert (md !! str "categories" = None) as H4 by compute_it.
  assert (md !! str "servings" = None) as H5 by compute_it.
  repeat (split; [assumption|]).
  exact (defaults_for_omitted_keys ascii_digits fs f author_only_document md
           H1 H2 H3 H4 H5).
Defined.

Lemma missing_directory_writes_nothing_witness :
  listdir no_directory RECETTES = None
  ∧ generate_recipes_json ascii_digits no_directory RECETTES OUTPUT
    = [Print (ERROR_no_directory RECETTES)]
  ∧ ∀ e, e ∈ generate_recipes_json ascii_digits no_directory RECETTES OUTPUT →
         (∀ p, e ≠ MkdirParents p) ∧ (∀ p text, e ≠ WriteText p text).
Proof.
  assert (listdir no_directory RECETTES = None) as H1 by reflexivity.
  split; [assumption|].
  exact (missing_directory_writes_nothing ascii_digits no_directory RECETTES OUTPUT H1).
Defined.

Lemma run_is_deterministic_witness :
  let fs1 := directory [str "a.qmd"; str "b.qmd"] in
  let fs2 := directory [str "b.qmd"; str "a.qmd"] in
  (∀ p, read_text fs1 p = read_text fs2 p)
  ∧ option_Forall2 (≡ₚ) (listdir fs1 RECETTES) (listdir fs2 RECETTES)
  ∧ generate_recipes_json ascii_digits fs1 RECETTES OUTPUT
    = generate_recipes_json ascii_digits fs2 RECETTES OUTPUT.
Proof.
  intros fs1 fs2.
  assert (∀ p, read_text fs1 p = read_text fs2 p) as H1 by reflexivity.
  assert (option_Forall2 (≡ₚ) (listdir fs1 RECETTES) (listdir fs2 RECETTES)) as H2.
  { vm_compute. constructor. apply perm_swap. }
  repeat (split; [assumption|]).
  exact (run_is_deterministic ascii_digits fs1 fs2 RECETTES OUTPUT H1 H2).
Defined.

Lemma empty_metadata_treated_as_missing_witness :
  let fs := directory [str "vide.qmd"] in
  let f := Path RECETTES (str "vide.qmd") in
  read_text fs f = Return no_entry_document
  ∧ parse_yaml_frontmatter no_entry_document = Return (Some ∅)
  ∧ parse_recipe_file ascii_digits fs f = ([WARNING_no_frontmatter f], None)
  ∧ process_file ascii_digits fs ([], []) f =
      ([] ++ [Print (PROCESSING (name f)); Print (WARNING_no_frontmatter f)], [])
  ∧ ∀ fs0 content0,
      read_text fs0 f = Return content0 →
      parse_yaml_frontmatter content0 = Return None →
      parse_recipe_file ascii_digits fs0 f = parse_recipe_file ascii_digits fs f.
Proof.
  intros fs f.
  assert (read_text fs f = Return no_entry_document) as H1 by compute_it.
  assert (parse_yaml_frontmatter no_entry_document = Return (Some ∅)) as H2
      by compute_it.
  repeat (split; [assumption|]).
  exact (empty_metadata_treated_as_missing ascii_digits fs f no_entry_document
           [] [] H1 H2).
Defined.

Lemma empty_categories_fail_document_witness :
  let fs := directory [str "tarte.qmd"] in
  let f := Path RECETTES (str "tarte.qmd") in
  let md : gmap pystr value :=
    <[str "categories" := VList []]> (<[str "title" := VStr (str "Tarte")]> ∅) in
  read_text fs f = Return empty_categories_document
  ∧ parse_yaml_frontmatter empty_categories_document = Return (Some md)
  ∧ md !! str "categories" = Some (VList [])
  ∧ category_of md = Raise IndexError
  ∧ parse_recipe_file ascii_digits fs f = ([ERROR_parsing f IndexError], None)
  ∧ process_file ascii_digits fs ([], []) f =
      ([] ++ [Print (PROCESSING (name f)); Print (ERROR_parsing f IndexError)], []).
Proof.
  intros fs f md.
  assert (read_text fs f = Return empty_categories_document) as H1 by compute_it.
  assert (parse_yaml_frontmatter empty_categories_document = Return (Some md)) as H2
      by compute_it.
  assert (md !! str "categories" = Some (VList [])) as H3 by compute_it.
  repeat (split; [assumption|]).
  exact (empty_categories_fail_document ascii_digits fs f empty_categories_document
           md [] [] H1 H2 H3).
Defined.

(** ** The further theorems at work *)

Lemma run_reports_counts_witness :
  let names := [str "soupe.qmd"; str "notes.qmd"; str "_template.qmd"; str "README.md"] in
  let fs := directory names in
  listdir fs RECETTES = Some names
  ∧ ∃ events recipes,
      generate_recipes_json ascii_digits fs RECETTES OUTPUT
      = Print (FOUND (length (filter (λ n, glob_qmd n = true ∧ n ≠ TEMPLATE) names)))
        :: events
        ++ [ MkdirParents OUTPUT;
             WriteText OUTPUT (Json.dump recipes);
             Print (SUCCESS OUTPUT);
             Print (TOTAL (length recipes)) ]
      ∧ (length recipes
         ≤ length (filter (λ n, glob_qmd n = true ∧ n ≠ TEMPLATE) names))%nat.
Proof.
  intros names fs.
  assert (listdir fs RECETTES = Some names) as H1 by compute_it.
  split; [assumption|].
  exact (run_reports_counts ascii_digits fs RECETTES OUTPUT names H1).
Defined.

Lemma run_without_documents_writes_empty_array_witness :
  let names := [str "_template.qmd"; str "README.md"] in
  let fs := directory names in
  listdir fs RECETTES = Some names
  ∧ (∀ n, n ∈ names → glob_qmd n = false ∨ n = TEMPLATE)
  ∧ generate_recipes_json ascii_digits fs RECETTES OUTPUT
    = [ Print (FOUND 0);
        MkdirParents OUTPUT;
        WriteText OUTPUT (str "[]");
        Print (SUCCESS OUTPUT);
        Print (TOTAL 0) ].
Proof.
  intros names fs.
  assert (listdir fs RECETTES = Some names) as H1 by compute_it.
  assert (∀ n, n ∈ names → glob_qmd n = false ∨ n = TEMPLATE) as H2.
  { apply (proj1 (Forall_forall (λ n, glob_qmd n = false ∨ n = TEMPLATE) names)).
    decide_it. }
  repeat (split; [assumption|]).
  exact (run_without_documents_writes_empty_array ascii_digits fs RECETTES OUTPUT
           names H1 H2).
Defined.

Lemma run_reads_only_discovered_files_witness :
  let names := [str "soupe.qmd"; str "_template.qmd"; str "README.md"] in
  let fs1 := directory names in
  let fs2 := directory_of pantry names in
  listdir fs1 RECETTES = Some names
  ∧ listdir fs2 RECETTES = Some names
  ∧ (∀ n, n ∈ names → glob_qmd n = true → n ≠ TEMPLATE →
          read_text fs1 (Path RECETTES n) = read_text fs2 (Path RECETTES n))
  ∧ read_text fs1 (Path RECETTES TEMPLATE) ≠ read_text fs2 (Path RECETTES TEMPLATE)
  ∧ generate_recipes_json ascii_digits fs1 RECETTES OUTPUT
    = generate_recipes_json ascii_digits fs2 RECETTES OUTPUT.
Proof.
  intros names fs1 fs2.
  assert (listdir fs1 RECETTES = Some names) as H1 by compute_it.
  assert (listdir fs2 RECETTES = Some names) as H2 by compute_it.
  assert (∀ n, n ∈ names → glob_qmd n = true → n ≠ TEMPLATE →
          read_text fs1 (Path RECETTES n) = read_text fs2 (Path RECETTES n)) as H3.
  { intros n Hn Hglob Htemplate.
    repeat (apply elem_of_cons in Hn as [->|Hn]).
    - compute_it.
    - by destruct Htemplate.
    - by vm_compute in Hglob.
    - by apply elem_of_nil in Hn. }
  assert (read_text fs1 (Path RECETTES TEMPLATE)
          ≠ read_text fs2 (Path RECETTES TEMPLATE)) as H4 by (by vm_compute).
  repeat (split; [assumption|]).
  exact (run_reads_only_discovered_files ascii_digits fs1 fs2 RECETTES OUTPUT
           names H1 H2 H3).
Defined.

Lemma document_without_record_leaves_output_unchanged_witness :
  let names := [str "soupe.qmd"; str "notes.qmd"] in
  let n := str "notes.qmd" in
  let fs := directory names in
  let fs' := directory (filter (λ m, m ≠ n) names) in
  listdir fs RECETTES = Some names
  ∧ listdir fs' RECETTES = Some (filter (λ m, m ≠ n) names)
  ∧ (∀ p, read_text fs p = read_text fs' p)
  ∧ file_recipe ascii_digits fs (Path RECETTES n) = None
  ∧ ∃ events events' recipes,
      generate_recipes_json ascii_digits fs RECETTES OUTPUT
      = events ++ epilogue OUTPUT recipes
      ∧ generate_recipes_json ascii_digits fs' RECETTES OUTPUT
        = events' ++ epilogue OUTPUT recipes.
Proof.
  intros names n fs fs'.
  assert (listdir fs RECETTES = Some names) as H1 by compute_it.
  assert (listdir fs' RECETTES = Some (filter (λ m, m ≠ n) names)) as H2
      by compute_it.
  assert (∀ p, read_text fs p = read_text fs' p) as H3 by reflexivity.
  assert (file_recipe ascii_digits fs (Path RECETTES n) = None) as H4 by compute_it.
  repeat (split; [assumption|]).
  exact (document_without_record_leaves_output_unchanged ascii_digits fs fs'
           RECETTES OUTPUT names n H1 H2 H3 H4).
Defined.

Lemma recipe_id_round_trip_witness :
  let n := str "tarte.aux.pommes.qmd" in
  glob_qmd n = true
  ∧ (n ≠ str ".qmd" → generate_recipe_id (Path RECETTES n) ++ str ".qmd" = n)
  ∧ (n = str ".qmd" → generate_recipe_id (Path RECETTES n) = str ".qmd").
Proof.
  intros n.
  assert (glob_qmd n = true) as H1 by compute_it.
  split; [assumption|].
  exact (recipe_id_round_trip RECETTES n H1).
Defined.

Lemma output_ids_are_distinct_witness :
  let names := [str "soupe.qmd"; str "a.qmd"; str "soupe.md"; str "notes.qmd"] in
  let fs := directory names in
  listdir fs RECETTES = Some names
  ∧ NoDup names
  ∧ (str ".qmd" ∉ names)
  ∧ ∃ events recipes,
      generate_recipes_json ascii_digits fs RECETTES OUTPUT
      = events ++ epilogue OUTPUT recipes
      ∧ NoDup (id <$> recipes).
Proof.
  intros names fs.
  assert (listdir fs RECETTES = Some names) as H1 by compute_it.
  assert (NoDup names) as H2 by decide_it.
  assert (str ".qmd" ∉ names) as H3 by decide_it.
  repeat (split; [assumption|]).
  exact (output_ids_are_distinct ascii_digits fs RECETTES OUTPUT names H1 H2 H3).
Defined.

Lemma no_heading_no_ingredients_witness :
  let content := no_entry_document in
  label_free (length content) content = true
  ∧ extract_ingredients content = [].
Proof.
  intros content.
  assert (label_free (length content) content = true) as H1 by compute_it.
  split; [assumption|].
  exact (no_heading_no_ingredients content H1).
Defined.

Lemma ingredients_are_trimmed_and_not_empty_witness :
  let content := soup_document in
  let x := str "2 carrots" in
  x ∈ extract_ingredients content
  ∧ x ≠ [] ∧ strip x = x ∧ (NL ∉ x).
Proof.
  intros content x.
  assert (x ∈ extract_ingredients content) as H1 by decide_it.
  split; [assumption|].
  exact (ingredients_are_trimmed_and_not_empty content x H1).
Defined.

Lemma heading_in_any_case_witness :
  let pre := soup_header in
  let ws := [32; 9] in
  let lab := str "INGRÉDIENTS" in
  let ws2 := [32] in
  let sec := str "- sel" in
  let tail := NL :: str "## Préparation" in
  ws ≠ []
  ∧ blank ws = true
  ∧ length lab = length (str "Ingrédients")
  ∧ ci_prefix (str "Ingrédients") lab = true
  ∧ blank ws2 = true
  ∧ label_free (length pre)
      (pre ++ (str "##" ++ ws ++ lab) ++ ws2 ++ NL :: sec ++ tail) = true
  ∧ blank sec = false
  ∧ no_heading_inside sec = true
  ∧ (tail = [] ∨ heading_follows tail = true)
  ∧ extract_ingredients (pre ++ (str "##" ++ ws ++ lab) ++ ws2 ++ NL :: sec ++ tail)
    = dash_items sec.
Proof.
  intros pre ws lab ws2 sec tail.
  assert (ws ≠ []) as H1 by (by vm_compute).
  assert (blank ws = true) as H2 by compute_it.
  assert (length lab = length (str "Ingrédients")) as H3 by compute_it.
  assert (ci_prefix (str "Ingrédients") lab = true) as H4 by compute_it.
  assert (blank ws2 = true) as H5 by compute_it.
  assert (label_free (length pre)
            (pre ++ (str "##" ++ ws ++ lab) ++ ws2 ++ NL :: sec ++ tail) = true)
    as H6 by compute_it.
  assert (blank sec = false) as H7 by compute_it.
  assert (no_heading_inside sec = true) as H8 by compute_it.
  assert (tail = [] ∨ heading_follows tail = true) as H9 by (right; compute_it).
  repeat (split; [assumption|]).
  exact (heading_in_any_case pre ws lab ws2 sec tail H1 H2 H3 H4 H5 H6 H7 H8 H9).
Defined.

Lemma blank_section_takes_the_next_witness :
  let pre := soup_header in
  let w := [32] in
  let next := str " Préparation" ++ NL :: str "- four" in
  let tail := @nil N in
  label_free (length pre)
    (pre ++ str "## Ingrédients" ++ NL :: w ++ NL :: HASH :: HASH :: next ++ tail)
  = true
  ∧ blank w = true
  ∧ no_heading_inside (HASH :: HASH :: next) = true
  ∧ (tail = [] ∨ heading_follows tail = true)
  ∧ extract_ingredients
      (pre ++ str "## Ingrédients" ++ NL :: w ++ NL :: HASH :: HASH :: next ++ tail)
    = dash_items (HASH :: HASH :: next).
Proof.
  intros pre w next tail.
  assert (label_free (length pre)
            (pre ++ str "## Ingrédients" ++ NL :: w ++ NL :: HASH :: HASH :: next ++ tail)
          = true) as H1 by compute_it.
  assert (blank w = true) as H2 by compute_it.
  assert (no_heading_inside (HASH :: HASH :: next) = true) as H3 by compute_it.
  assert (tail = [] ∨ heading_follows tail = true) as H4 by (by left).
  repeat (split; [assumption|]).
  exact (blank_section_takes_the_next pre w next tail H1 H2 H3 H4).
Defined.

Lemma blank_last_section_is_empty_witness :
  let pre := soup_header in
  let w := [32; 32; NL] in
  label_free (length pre) (pre ++ str "## Ingrédients" ++ NL :: w) = true
  ∧ blank w = true
  ∧ extract_ingredients (pre ++ str "## Ingrédients" ++ NL :: w) = [].
Proof.
  intros pre w.
  assert (label_free (length pre) (pre ++ str "## Ingrédients" ++ NL :: w) = true)
    as H1 by compute_it.
  assert (blank w = true) as H2 by compute_it.
  repeat (split; [assumption|]).
  exact (blank_last_section_is_empty pre w H1 H2).
Defined.

Lemma unclosed_header_is_no_frontmatter_witness :
  let content := unlines [ str "---"; str "title: Soup"; str "--- fin" ] in
  no_closing content = true
  ∧ parse_yaml_frontmatter content = Return None.
Proof.
  intros content.
  assert (no_closing content = true) as H1 by compute_it.
  split; [assumption|].
  exact (unclosed_header_is_no_frontmatter content H1).
Defined.

Lemma header_must_start_the_document_witness :
  let content := NL :: soup_header in
  take 3 content ≠ str "---"
  ∧ parse_yaml_frontmatter content = Return None.
Proof.
  intros content.
  assert (take 3 content ≠ str "---") as H1 by decide_it.
  split; [assumption|].
  exact (header_must_start_the_document content H1).
Defined.

Lemma frontmatter_block_witness :
  let c := 116%N in
  let yaml := str "itle: Soup" ++ NL :: str "servings: 2" in
  let body := str "## Ingrédients" in
  isspace c = false
  ∧ no_marker_inside (c :: yaml) = true
  ∧ parse_yaml_frontmatter
      (str "---" ++ NL :: (c :: yaml) ++ NL :: str "---" ++ NL :: body)
    = (st ←! for_each yaml_line yaml_start (split NL (c :: yaml));
       Return (Some (metadata st))).
Proof.
  intros c yaml body.
  assert (isspace c = false) as H1 by compute_it.
  assert (no_marker_inside (c :: yaml) = true) as H2 by compute_it.
  repeat (split; [assumption|]).
  exact (frontmatter_block c yaml body H1 H2).
Defined.

Lemma yaml_scalar_line_witness :
  let st := yaml_start in
  let indent := [32; 32] in
  let key := str "title" in
  let sp1 := [32] in
  let sp2 := [32; 9] in
  let q1 := [DQUOTE] in
  let value := str "Soupe à l'oignon" in
  let q2 := [DQUOTE] in
  let trail := [32] in
  blank indent = true ∧ blank sp1 = true ∧ blank sp2 = true ∧ blank trail = true
  ∧ plain_key key
  ∧ forallb (one_of QUOTES) q1 = true ∧ forallb (one_of QUOTES) q2 = true
  ∧ strip (q1 ++ value ++ q2) = q1 ++ value ++ q2
  ∧ strip_set QUOTES value = value
  ∧ value ≠ []
  ∧ startswith LBRACKET value = false
  ∧ yaml_line st (indent ++ key ++ sp1 ++ COLON :: sp2 ++ (q1 ++ value ++ q2) ++ trail)
    = Return (YamlState (<[key := VStr value]> (metadata st))
                (current_key st) (list_mode st)).
Proof.
  intros st indent key sp1 sp2 q1 value q2 trail.
  assert (blank indent = true) as H1 by compute_it.
  assert (blank sp1 = true) as H2 by compute_it.
  assert (blank sp2 = true) as H3 by compute_it.
  assert (blank trail = true) as H4 by compute_it.
  assert (plain_key key) as H5 by (split; [decide_it|split; compute_it]).
  assert (forallb (one_of QUOTES) q1 = true) as H6 by compute_it.
  assert (forallb (one_of QUOTES) q2 = true) as H7 by compute_it.
  assert (strip (q1 ++ value ++ q2) = q1 ++ value ++ q2) as H8 by compute_it.
  assert (strip_set QUOTES value = value) as H9 by compute_it.
  assert (value ≠ []) as H10 by (by vm_compute).
  assert (startswith LBRACKET value = false) as H11 by compute_it.
  repeat (split; [assumption|]).
  exact (yaml_scalar_line st indent key sp1 sp2 q1 value q2 trail
           H1 H2 H3 H4 H5 H6 H7 H8 H9 H10 H11).
Defined.

Lemma yaml_list_key_line_witness :
  let st := yaml_start in
  let indent := @nil N in
  let key := str "categories" in
  let sp1 := @nil N in
  let sp2 := [32] in
  let q := [SQUOTE; SQUOTE] in
  let trail := [32; 32] in
  blank indent = true ∧ blank sp1 = true ∧ blank sp2 = true ∧ blank trail = true
  ∧ plain_key key
  ∧ forallb (one_of QUOTES) q = true
  ∧ yaml_line st (indent ++ key ++ sp1 ++ COLON :: sp2 ++ q ++ trail)
    = Return (YamlState (<[key := VList []]> (metadata st)) (Some key) true).
Proof.
  intros st indent key sp1 sp2 q trail.
  assert (blank indent = true) as H1 by compute_it.
  assert (blank sp1 = true) as H2 by compute_it.
  assert (blank sp2 = true) as H3 by compute_it.
  assert (blank trail = true) as H4 by compute_it.
  assert (plain_key key) as H5 by (split; [decide_it|split; compute_it]).
  assert (forallb (one_of QUOTES) q = true) as H6 by compute_it.
  repeat (split; [assumption|]).
  exact (yaml_list_key_line st indent key sp1 sp2 q trail H1 H2 H3 H4 H5 H6).
Defined.

Lemma yaml_inline_list_line_witness :
  let st := yaml_start in
  let indent := @nil N in
  let key := str "categories" in
  let sp1 := @nil N in
  let sp2 := [32] in
  let items := [str "plat principal"; str "hiver"] in
  let trail := [32] in
  blank indent = true ∧ blank sp1 = true ∧ blank sp2 = true ∧ blank trail = true
  ∧ plain_key key
  ∧ items ≠ []
  ∧ Forall (λ x, (COMMA ∉ x) ∧ plain_text x) items
  ∧ strip_set [LBRACKET; RBRACKET] (join (str ", ") items) = join (str ", ") items
  ∧ yaml_line st
      (indent ++ key ++ sp1 ++ COLON
         :: sp2 ++ (LBRACKET :: join (str ", ") items ++ [RBRACKET]) ++ trail)
    = Return (YamlState (<[key := VList items]> (metadata st))
                (current_key st) (list_mode st)).
Proof.
  intros st indent key sp1 sp2 items trail.
  assert (blank indent = true) as H1 by compute_it.
  assert (blank sp1 = true) as H2 by compute_it.
  assert (blank sp2 = true) as H3 by compute_it.
  assert (blank trail = true) as H4 by compute_it.
  assert (plain_key key) as H5 by (split; [decide_it|split; compute_it]).
  assert (items ≠ []) as H6 by (by vm_compute).
  assert (Forall (λ x, (COMMA ∉ x) ∧ plain_text x) items) as H7
      by (repeat constructor; first [decide_it|compute_it]).
  assert (strip_set [LBRACKET; RBRACKET] (join (str ", ") items)
          = join (str ", ") items) as H8 by compute_it.
  repeat (split; [assumption|]).
  exact (yaml_inline_list_line st indent key sp1 sp2 items trail
           H1 H2 H3 H4 H5 H6 H7 H8).
Defined.

Lemma yaml_block_list_witness :
  let st := YamlState (<[str "title" := VStr (str "Tarte")]> ∅) None false in
  let key := str "tags" in
  let items := [str "dessert"; str "four"] in
  plain_key key ∧ key ≠ []
  ∧ Forall plain_text items
  ∧ for_each yaml_line st
      ((key ++ str ":") :: ((λ item, str "  - " ++ item) <$> items))
    = Return (YamlState (<[key := VList items]> (metadata st)) (Some key) true).
Proof.
  intros st key items.
  assert (plain_key key) as H1 by (split; [decide_it|split; compute_it]).
  assert (key ≠ []) as H2 by (by vm_compute).
  assert (Forall plain_text items) as H3 by (repeat constructor; compute_it).
  repeat (split; [assumption|]).
  exact (yaml_block_list st key items H1 H2 H3).
Defined.

Lemma redeclared_list_key_raises_witness :
  let st := yaml_start in
  let key := str "tags" in
  let value := str "dessert" in
  let v := str " sucre" in
  let more := [str "servings: 4"] in
  plain_key key ∧ key ≠ []
  ∧ plain_text value ∧ value ≠ [] ∧ startswith LBRACKET value = false
  ∧ for_each yaml_line st
      ([key ++ str ":"; key ++ str ": " ++ value; DASH :: v] ++ more)
    = Raise AttributeError.
Proof.
  intros st key value v more.
  assert (plain_key key) as H1 by (split; [decide_it|split; compute_it]).
  assert (key ≠ []) as H2 by (by vm_compute).
  assert (plain_text value) as H3 by (split; compute_it).
  assert (value ≠ []) as H4 by (by vm_compute).
  assert (startswith LBRACKET value = false) as H5 by compute_it.
  repeat (split; [assumption|]).
  exact (redeclared_list_key_raises st key value v more H1 H2 H3 H4 H5).
Defined.

Lemma header_entries_are_trimmed_witness :
  let content := soup_document in
  let md := soup_metadata in
  parse_yaml_frontmatter content = Return (Some md)
  ∧ (∀ k, is_Some (md !! k) → strip k = k)
  ∧ (∀ k v, md !! k = Some (VStr v) → v ≠ [] ∧ strip_set QUOTES v = v).
Proof.
  intros content md.
  assert (parse_yaml_frontmatter content = Return (Some md)) as H1 by compute_it.
  split; [assumption|].
  exact (header_entries_are_trimmed content md H1).
Defined.

Lemma header_parser_raises_only_attribute_error_witness :
  let content := redeclared_document in
  let e := AttributeError in
  parse_yaml_frontmatter content = Raise e
  ∧ e = AttributeError.
Proof.
  intros content e.
  assert (parse_yaml_frontmatter content = Raise e) as H1 by compute_it.
  split; [assumption|].
  exact (header_parser_raises_only_attribute_error content e H1).
Defined.

Lemma record_title_is_not_empty_witness :
  let fs := directory [str "soupe.qmd"] in
  let f := Path RECETTES (str "soupe.qmd") in
  let r := Recipe (str "soupe") (VStr (str "Soup")) (str "dinner") 2
             [str "2 carrots"; str "1 onion"] in
  parse_recipe_file ascii_digits fs f = ([], Some r)
  ∧ title r ≠ VStr [].
Proof.
  intros fs f r.
  assert (parse_recipe_file ascii_digits fs f = ([], Some r)) as H1 by compute_it.
  split; [assumption|].
  exact (record_title_is_not_empty ascii_digits fs f [] r H1).
Defined.

